(** * JeLLyFysh: cell-occupancy index and event handlers

    A shallow embedding of
    - [jellyfysh/activator/internal_state/single_active_cell_occupancy.py]
      (class [SingleActiveCellOccupancy]),
    - [event_handler/final_time_end_of_run_event_handler.py]
      (class [FinalTimeEndOfRunEventHandler]),
    - [event_handler/leaf_unit_cell_veto_event_handler.py]
      (class [LeafUnitCellVetoEventHandler]),
    together with the properties stated about them.

    Python objects are records, their methods are computations in a small
    state-and-exception monad, dictionaries are [gmap]s, Python floats are
    primitive binary64 floats. *)

From Stdlib Require Import ZArith QArith PrimFloat.
From Stdlib Require FloatOps SpecFloat.
From stdpp Require Import gmap strings list fin_maps pretty.

Close Scope Q_scope.
Local Open Scope Z_scope.

(** ** Python exceptions and the state-and-exception monad *)

Inductive Exception : Type :=
| AssertionError
| KeyError
| ValueError
| IndexError
| TypeError
| ConfigurationError.

Inductive Result (A : Type) : Type :=
| Ok (a : A)
| Raise (e : Exception).
Arguments Ok {A} a.
Arguments Raise {A} e.

(** A method of an object of type [S]: it returns or raises, and in both
    cases leaves the object in some state (what it had already mutated when
    it raised stays mutated). *)
Definition M (S A : Type) : Type := S → Result A * S.

Definition ret {S A} (a : A) : M S A := λ s, (Ok a, s).
Definition raise {S A} (e : Exception) : M S A := λ s, (Raise e, s).
Definition bind {S A B} (m : M S A) (k : A → M S B) : M S B :=
  λ s, match m s with
       | (Ok a, s') => k a s'
       | (Raise e, s') => (Raise e, s')
       end.
Definition get {S} : M S S := λ s, (Ok s, s).
Definition modify {S} (f : S → S) : M S unit := λ s, (Ok tt, f s).
Definition lift {S A} (r : Result A) : M S A := λ s, (r, s).

(** [try: m except e: h] *)
Definition try_except {S A} (m : M S A) (e : Exception) (h : M S A) : M S A :=
  λ s, match m s with
       | (Ok a, s') => (Ok a, s')
       | (Raise e', s') =>
           match e, e' with
           | AssertionError, AssertionError | KeyError, KeyError
           | ValueError, ValueError | IndexError, IndexError
           | TypeError, TypeError | ConfigurationError, ConfigurationError => h s'
           | _, _ => (Raise e', s')
           end
       end.

Notation "x <- m ;; k" := (bind m (λ x, k))
  (at level 100, m at next level, right associativity, only parsing).
Notation "m ;; k" := (bind m (λ _, k))
  (at level 100, right associativity, only parsing).

Definition assert {S} (b : bool) : M S unit :=
  if b then ret tt else raise AssertionError.

(** [for x in l: body x] *)
Fixpoint for_each {S A} (l : list A) (body : A → M S unit) : M S unit :=
  match l with
  | [] => ret tt
  | x :: l' => body x ;; for_each l' body
  end.

(** ** Python lists and dictionaries *)

(** [l.remove(x)]: drops the first occurrence, [ValueError] if there is none. *)
Fixpoint list_remove `{EqDecision A} (x : A) (l : list A) : Result (list A) :=
  match l with
  | [] => Raise ValueError
  | y :: l' =>
      if decide (y = x) then Ok l'
      else match list_remove x l' with
           | Ok k => Ok (y :: k)
           | Raise e => Raise e
           end
  end.

(** [l.pop()]: the last element and the rest, [IndexError] on an empty list. *)
Fixpoint list_pop {A} (l : list A) : Result (A * list A) :=
  match l with
  | [] => Raise IndexError
  | [x] => Ok (x, [])
  | y :: l' =>
      match list_pop l' with
      | Ok (x, k) => Ok (x, y :: k)
      | Raise e => Raise e
      end
  end.

(** [d[k]] *)
Definition dict_getitem `{Countable K} {V} (d : gmap K V) (k : K) : Result V :=
  match d !! k with
  | Some v => Ok v
  | None => Raise KeyError
  end.

(** ** Units, nodes and the state tree *)

Definition StateId : Type := list nat.
Definition Position : Type := list float.
Definition Cell : Type := nat.

Record Unit : Type := mkUnit {
  identifier : StateId;
  position : Position;
  charge : option (gmap string float);
  velocity : option (list float);
  time_stamp : option float
}.

Inductive Node : Type := mkNode {
  value : Unit;
  children : list Node
}.

(** Modelled from the spec: [base.node.yield_nodes_on_level_below] is not
    part of the sources at hand.  The identifier length of a unit is its
    depth in the tree and the index tracks the units at depth [cell_level];
    the helper is called on a root node (depth 1) with [cell_level - 1], so
    it generates the nodes that many levels below the given node, in order:
    the node itself for level 0, and otherwise the nodes one level less
    below each of its children. *)
Fixpoint yield_nodes_on_level_below (node : Node) (level : Z) : list Node :=
  if level =? 0 then [node]
  else
    (fix over_children (l : list Node) : list Node :=
       match l with
       | [] => []
       | child :: l' =>
           yield_nodes_on_level_below child (level - 1) ++ over_children l'
       end) (children node).

(** The cell system, consumed as a capability. *)
Record Cells : Type := mkCells {
  yield_cells : list Cell;
  position_to_cell : Position → Cell
}.

(** ** [SingleActiveCellOccupancy] *)

(** [lambda unit: unit.charge[charge] != 0]: subscripting [None] is a
    [TypeError], a missing charge name a [KeyError]; [!=] is the IEEE
    comparison of Python floats. *)
Definition charge_not_zero (name : string) (unit : Unit) : Result bool :=
  match charge unit with
  | None => Raise TypeError
  | Some d =>
      match dict_getitem d name with
      | Ok c => Ok (negb (PrimFloat.eqb c 0%float))
      | Raise e => Raise e
      end
  end.

Record SingleActiveCellOccupancy : Type := mkSACO {
  _cells : Cells;
  _cell_level : Z;
  _maximum_number_occupants : Z;
  _number_occupants_not_bounded : bool;
  _surplus : gmap Cell (list StateId);
  _occupants : gmap Cell (list StateId);
  _active_unit_identifier : option StateId;
  _is_relevant_unit : Unit → Result bool;
  _active_cell : option Cell
}.

(** Field updates. *)
Definition set_surplus (f : gmap Cell (list StateId) → gmap Cell (list StateId))
    (self : SingleActiveCellOccupancy) : SingleActiveCellOccupancy :=
  mkSACO (_cells self) (_cell_level self) (_maximum_number_occupants self)
    (_number_occupants_not_bounded self) (f (_surplus self)) (_occupants self)
    (_active_unit_identifier self) (_is_relevant_unit self) (_active_cell self).
Definition set_occupants (f : gmap Cell (list StateId) → gmap Cell (list StateId))
    (self : SingleActiveCellOccupancy) : SingleActiveCellOccupancy :=
  mkSACO (_cells self) (_cell_level self) (_maximum_number_occupants self)
    (_number_occupants_not_bounded self) (_surplus self) (f (_occupants self))
    (_active_unit_identifier self) (_is_relevant_unit self) (_active_cell self).
Definition set_active_unit_identifier (i : option StateId)
    (self : SingleActiveCellOccupancy) : SingleActiveCellOccupancy :=
  mkSACO (_cells self) (_cell_level self) (_maximum_number_occupants self)
    (_number_occupants_not_bounded self) (_surplus self) (_occupants self)
    i (_is_relevant_unit self) (_active_cell self).
Definition set_active_cell (c : option Cell)
    (self : SingleActiveCellOccupancy) : SingleActiveCellOccupancy :=
  mkSACO (_cells self) (_cell_level self) (_maximum_number_occupants self)
    (_number_occupants_not_bounded self) (_surplus self) (_occupants self)
    (_active_unit_identifier self) (_is_relevant_unit self) c.

Abbreviation Method := (M SingleActiveCellOccupancy).

(** [self._occupants[cell]]; [cell] may be [self._active_cell], which can be
    [None], a key the dictionary never has. *)
Definition occupants_getitem (cell : option Cell) : Method (list StateId) :=
  self <- get ;;
  match cell with
  | Some c => lift (dict_getitem (_occupants self) c)
  | None => raise KeyError
  end.

(** [self._surplus[cell]] *)
Definition surplus_getitem (cell : Cell) : Method (list StateId) :=
  self <- get ;; lift (dict_getitem (_surplus self) cell).

(** [self._occupants[cell].append(x)] *)
Definition occupants_append (cell : option Cell) (x : StateId) : Method unit :=
  l <- occupants_getitem cell ;;
  match cell with
  | Some c => modify (set_occupants (insert c (l ++ [x])))
  | None => raise KeyError
  end.

(** [self._surplus.setdefault(cell, []).append(x)] *)
Definition surplus_setdefault_append (cell : Cell) (x : StateId) : Method unit :=
  self <- get ;;
  modify (set_surplus (insert cell (default [] (_surplus self !! cell) ++ [x]))).

(** [self._occupants[cell].remove(x)] *)
Definition occupants_remove (cell : Cell) (x : StateId) : Method unit :=
  l <- occupants_getitem (Some cell) ;;
  l' <- lift (list_remove x l) ;;
  modify (set_occupants (insert cell l')).

(** [self._surplus[cell].remove(x)] *)
Definition surplus_remove (cell : Cell) (x : StateId) : Method unit :=
  l <- surplus_getitem cell ;;
  l' <- lift (list_remove x l) ;;
  modify (set_surplus (insert cell l')).

(** [self._surplus[cell].pop()] *)
Definition surplus_pop (cell : Cell) : Method StateId :=
  l <- surplus_getitem cell ;;
  xl <- lift (list_pop l) ;;
  modify (set_surplus (insert cell xl.2)) ;;
  ret xl.1.

(** [del self._surplus[cell]] *)
Definition surplus_delitem (cell : Cell) : Method unit :=
  _ <- surplus_getitem cell ;;
  modify (set_surplus (delete cell)).

(** Truth value of [self._surplus.get(cell, True)]: a list is true when it
    is not empty, the default [True] is true. *)
Definition surplus_get_or_True (cell : Cell) : Method bool :=
  self <- get ;;
  ret match _surplus self !! cell with
      | Some l => negb (bool_decide (l = []))
      | None => true
      end.

(** Modelled from the spec: the constructor of the base class
    [CellOccupancy] is not part of the sources at hand.  It stores the cell
    system, the cell level and the capacity; a capacity smaller than or
    equal to zero means an unbounded number of occupants per cell. *)
Definition CellOccupancy__init__ (cells : Cells) (cell_level : Z)
    (maximum_number_occupants : Z) : SingleActiveCellOccupancy :=
  mkSACO cells cell_level maximum_number_occupants
    (maximum_number_occupants <=? 0) ∅ ∅ None (λ _, Ok true) None.

Section SingleActiveCellOccupancy.
(** [setting.number_of_node_levels] *)
Variable number_of_node_levels : Z.

Definition __init__ (cells : Cells) (cell_level : Z)
    (maximum_number_occupants : Z) (charge : option string)
  : Result SingleActiveCellOccupancy :=
  let self := CellOccupancy__init__ cells cell_level maximum_number_occupants in
  if (cell_level <? number_of_node_levels) && bool_decide (charge ≠ None)
  then Raise ConfigurationError
  else
    Ok (mkSACO (_cells self) (_cell_level self) (_maximum_number_occupants self)
          (_number_occupants_not_bounded self)
          ∅
          (list_to_map ((λ cell, (cell, [])) <$> yield_cells (_cells self)))
          None
          (match charge with
           | Some name => charge_not_zero name
           | None => λ _, Ok true
           end)
          None).
End SingleActiveCellOccupancy.

(** Body of the loop of [initialize], for one node on the cell level. *)
Definition initialize_unit (relevant_cnode : Node) : Method unit :=
  let unit := value relevant_cnode in
  self <- get ;;
  relevant <- lift (_is_relevant_unit self unit) ;;
  if relevant : bool then
    let cell := position_to_cell (_cells self) (position unit) in
    occ <- occupants_getitem (Some cell) ;;
    if (Z.of_nat (length occ) <? _maximum_number_occupants self)
       || _number_occupants_not_bounded self
    then occupants_append (Some cell) (identifier unit)
    else surplus_setdefault_append cell (identifier unit)
  else ret tt.

(** [initialize]; the method of the base class it extends, not part of the
    sources at hand, is taken to leave the fields of this class alone. *)
Definition initialize (extracted_global_state : list Node) : Method unit :=
  for_each extracted_global_state (λ root_cnode,
    self <- get ;;
    for_each (yield_nodes_on_level_below root_cnode (_cell_level self - 1))
      initialize_unit).

Definition __getitem__ (internal_state_identifier : Cell) : Method (list StateId) :=
  occupants_getitem (Some internal_state_identifier).

(** [[cnode.value for root_cnode in state
                  for cnode in yield_nodes_on_level_below(root_cnode, cell_level - 1)]] *)
Definition units_on_cell_level (cell_level : Z) (state : list Node) : list Unit :=
  root_cnode ← state;
  cnode ← yield_nodes_on_level_below root_cnode (cell_level - 1);
  [value cnode].

(** [update].  Where the previous active identifier goes back, the test
    [len(self._occupants[self._active_cell])] comes first, so that an active
    cell [None] has raised a [KeyError] before [setdefault] could see it. *)
Definition update (extracted_active_global_state : list Node) : Method unit :=
  self <- get ;;
  let active_units_on_cell_level :=
    units_on_cell_level (_cell_level self) extracted_active_global_state in
  assert (bool_decide (length active_units_on_cell_level = 1%nat)) ;;
  match active_units_on_cell_level with
  | [] => raise IndexError
  | new_active_unit :: _ =>
      if bool_decide (Some (identifier new_active_unit) ≠ _active_unit_identifier self)
      then
        match _active_unit_identifier self with
        | Some active_unit_identifier =>
            occ <- occupants_getitem (_active_cell self) ;;
            if (Z.of_nat (length occ) <? _maximum_number_occupants self)
               || _number_occupants_not_bounded self
            then occupants_append (_active_cell self) active_unit_identifier
            else
              match _active_cell self with
              | Some c => surplus_setdefault_append c active_unit_identifier
              | None => raise KeyError
              end
        | None => ret tt
        end ;;
        relevant <- lift (_is_relevant_unit self new_active_unit) ;;
        if relevant : bool then
          let cell := position_to_cell (_cells self) (position new_active_unit) in
          modify (set_active_cell (Some cell)) ;;
          modify (set_active_unit_identifier (Some (identifier new_active_unit))) ;;
          try_except
            (occupants_remove cell (identifier new_active_unit) ;;
             nonempty <- surplus_get_or_True cell ;;
             if negb nonempty
             then x <- surplus_pop cell ;; occupants_append (Some cell) x
             else ret tt)
            ValueError
            (surplus_remove cell (identifier new_active_unit)) ;;
          nonempty <- surplus_get_or_True cell ;;
          if negb nonempty then surplus_delitem cell else ret tt
        else
          modify (set_active_unit_identifier None) ;;
          modify (set_active_cell None)
      else
        modify (set_active_cell
                  (Some (position_to_cell (_cells self) (position new_active_unit))))
  end.

(** [yield_surplus]: the identifiers of all surplus lists.  Python walks
    the dictionary in the order in which the cells were inserted, the map
    here is walked in the order of the cells: the identifiers generated are
    the same, their order across cells may differ. *)
Definition yield_surplus (self : SingleActiveCellOccupancy) : list StateId :=
  value ← (map_to_list (_surplus self)).*2; value.

Definition yield_active_cells (self : SingleActiveCellOccupancy)
  : list (Cell * option StateId) :=
  match _active_cell self with
  | Some c => [(c, _active_unit_identifier self)]
  | None => []
  end.

(** ** [FinalTimeEndOfRunEventHandler] *)

Module FinalTimeEndOfRunEventHandler.

Record t : Type := mk {
  _output_handler : option string;
  _event_time : float;
  _state : list Node
}.

(** Modelled from the spec: the constructors of the base classes
    [EndOfRunEventHandler] (which only calls its own base class) and
    [EventHandlerWithOutputHandler] (not part of the sources at hand).  The
    handler is connected to the output handler of the given name; no in-state
    is stored yet. *)
Definition EndOfRunEventHandler__init__ (output_handler : option string) : t :=
  mk output_handler 0%float [].

(** [not end_of_run_time > 0.0] is the IEEE comparison of Python floats. *)
Definition __init__ (end_of_run_time : float) (output_handler : option string)
  : Result t :=
  let self := EndOfRunEventHandler__init__ output_handler in
  if negb (PrimFloat.ltb 0%float end_of_run_time)
  then Raise ConfigurationError
  else Ok (mk (_output_handler self) end_of_run_time (_state self)).

Definition send_event_time : M t float :=
  self <- get ;; ret (_event_time self).

Section send_out_state.
(** The helpers of the base class [EventHandler], not part of the sources at
    hand, are parameters. *)
Variable _store_in_state : list Node → M t unit.
Variable _time_slice_all_units_in_state : M t unit.

Definition send_out_state (cnodes_with_active_units : list Node) : M t (list Node) :=
  _store_in_state cnodes_with_active_units ;;
  _time_slice_all_units_in_state ;;
  self <- get ;; ret (_state self).
End send_out_state.

End FinalTimeEndOfRunEventHandler.

(** ** [LeafUnitCellVetoEventHandler] *)

(** Modelled from the spec: [base.node.yield_leaf_nodes] is not part of the
    sources at hand.  A leaf node is a node without children; the helper
    generates the leaf nodes of the branch below the given node, in order. *)
Fixpoint yield_leaf_nodes (node : Node) : list Node :=
  match children node with
  | [] => [node]
  | _ =>
      (fix over_children (l : list Node) : list Node :=
         match l with
         | [] => []
         | child :: l' => yield_leaf_nodes child ++ over_children l'
         end) (children node)
  end.

(** [l[i]] for a Python list: negative indices count from the end. *)
Definition list_getitem {A} (l : list A) (i : Z) : Result A :=
  let n := Z.of_nat (length l) in
  let j := if i <? 0 then i + n else i in
  if (0 <=? j) && (j <? n)
  then match l !! Z.to_nat j with Some x => Ok x | None => Raise IndexError end
  else Raise IndexError.

(** The potential of an estimator, as far as the handler looks at it. *)
Record Potential : Type := mkPotential { number_charge_arguments : Z }.
Record Estimator : Type := mkEstimator { potential : Potential }.

Module LeafUnitCellVetoEventHandler.

Record t : Type := mk {
  _estimator : Estimator;
  _potential : Potential;
  _charge : option string;
  _charges : Unit → Unit → Result (list float);
  _state : list Node;
  _leaf_cnodes : list Node;
  _leaf_units : list Unit;
  _active_leaf_unit_index : Z
}.

(** Modelled from the spec: the constructor of the base class
    [CellVetoEventHandler] is not part of the sources at hand.  It keeps the
    estimator and its potential; nothing is stored from an in-state yet. *)
Definition CellVetoEventHandler__init__ (estimator : Estimator) : t :=
  mk estimator (potential estimator) None (λ _ _, Ok []) [] [] [] 0.

(** [unit.charge[charge]] *)
Definition unit_charge (name : string) (unit : Unit) : Result float :=
  match charge unit with
  | None => Raise TypeError
  | Some d => dict_getitem d name
  end.

Definition __init__ (estimator : Estimator) (charge : option string) : Result t :=
  let self := CellVetoEventHandler__init__ estimator in
  let with_charges charges :=
    mk (_estimator self) (_potential self) charge charges (_state self)
      (_leaf_cnodes self) (_leaf_units self) (_active_leaf_unit_index self) in
  match charge with
  | None =>
      Ok (with_charges (λ unit_one unit_two,
            Ok (replicate (Z.to_nat (number_charge_arguments (_potential self)))
                  1%float)))
  | Some name =>
      if number_charge_arguments (_potential self) =? 2
      then Ok (with_charges (λ unit_one unit_two,
                 match unit_charge name unit_one, unit_charge name unit_two with
                 | Ok c1, Ok c2 => Ok [c1; c2]
                 | Raise e, _ => Raise e
                 | _, Raise e => Raise e
                 end))
      else Raise ConfigurationError
  end.

Definition append_state (n : Node) (self : t) : t :=
  mk (_estimator self) (_potential self) (_charge self) (_charges self)
    (_state self ++ [n]) (_leaf_cnodes self) (_leaf_units self)
    (_active_leaf_unit_index self).
Definition append_leaf (n : Node) (self : t) : t :=
  mk (_estimator self) (_potential self) (_charge self) (_charges self)
    (_state self) (_leaf_cnodes self ++ [n]) (_leaf_units self ++ [value n])
    (_active_leaf_unit_index self).

Section send_out_state.
(** [setting.periodic_boundaries.separation_vector] and the method
    [_calculate_out_state_of_two_leaf_unit_bounding_potential] of the base
    class, not part of the sources at hand, are parameters. *)
Variable separation_vector : Position → Position → list float.
Variable _calculate_out_state_of_two_leaf_unit_bounding_potential :
  list float → list float → M t unit.

Definition send_out_state (target_unit_root_cnode : option Node)
  : M t (list Node) :=
  match target_unit_root_cnode with
  | None => self <- get ;; ret (_state self)
  | Some target =>
      modify (append_state target) ;;
      for_each (yield_leaf_nodes target) (λ leaf_cnode,
        modify (append_leaf leaf_cnode)) ;;
      self <- get ;;
      assert (bool_decide (length (_leaf_units self) = 2%nat)) ;;
      active <- lift (list_getitem (_leaf_units self)
                        (_active_leaf_unit_index self)) ;;
      other <- lift (list_getitem (_leaf_units self)
                       (Z.lxor (_active_leaf_unit_index self) 1)) ;;
      unit_one <- lift (list_getitem (_leaf_units self) 0) ;;
      unit_two <- lift (list_getitem (_leaf_units self) 1) ;;
      charges <- lift (_charges self unit_one unit_two) ;;
      _calculate_out_state_of_two_leaf_unit_bounding_potential
        (separation_vector (position active) (position other)) charges ;;
      self <- get ;; ret (_state self)
  end.
End send_out_state.

(** The active leaf unit the handler has recorded, if any. *)
Definition active_leaf_unit (self : t) : option Unit :=
  match list_getitem (_leaf_units self) (_active_leaf_unit_index self) with
  | Ok u => Some u
  | Raise _ => None
  end.

End LeafUnitCellVetoEventHandler.

(** ** The end-of-chain handler (time-stamp contract) *)

Module EndOfChainEventHandler.

(** Modelled from the spec: the class
    [SingleIndependentActivePeriodicDirectionEndOfChainEventHandler] is not
    part of the sources at hand, only its tests are.  Times are real numbers
    (here rationals).  The handler is built with a fixed chain time, which
    has to be greater than zero; it remembers the candidate time it sent
    last (zero at the start); [send_event_time] receives the active unit,
    of which this model keeps the time stamp, computes the next candidate
    time as the previous one plus the chain time, asserts that the time
    stamp lies between the previous and the next candidate time, both
    included, and sends the next candidate time. *)
Record t : Type := mk {
  _chain_time : Q;
  _event_time : Q
}.

Definition __init__ (chain_time : Q) : Result t :=
  if Qle_bool chain_time 0 then Raise ConfigurationError
  else Ok (mk chain_time 0).

Definition send_event_time (time_stamp : Q) : M t Q :=
  self <- get ;;
  let next_event_time := (_event_time self + _chain_time self)%Q in
  assert (Qle_bool (_event_time self) time_stamp
          && Qle_bool time_stamp next_event_time) ;;
  modify (λ self, mk (_chain_time self) next_event_time) ;;
  ret next_event_time.

End EndOfChainEventHandler.

(** ** [PdbOutputHandler] *)

Module PdbOutputHandler.

(** [setting.hypercuboid_setting], as far as the handler reads it. *)
Record Setting : Type := mkSetting {
  initialized : bool;
  dimension : Z;
  system_lengths : list float;
  number_of_root_nodes : Z;
  number_of_nodes_per_root_node : Z;
  number_of_node_levels : Z
}.

(** The constructor divides, so that its exceptions are those of the other
    classes and [ZeroDivisionError]. *)
Inductive Error : Type :=
| Python (e : Exception)
| ZeroDivisionError.

Inductive Outcome (A : Type) : Type :=
| Return (a : A)
| Throw (e : Error).
Arguments Return {A} a.
Arguments Throw {A} e.

Definition and_then {A B} (o : Outcome A) (k : A → Outcome B) : Outcome B :=
  match o with
  | Return a => k a
  | Throw e => Throw e
  end.

Definition of_result {A} (r : Result A) : Outcome A :=
  match r with
  | Ok a => Return a
  | Raise e => Throw (Python e)
  end.

(** [[f(x) for x in l]], stopping at the first exception. *)
Fixpoint comprehension {A B} (f : A → Outcome B) (l : list A) : Outcome (list B) :=
  match l with
  | [] => Return []
  | x :: l' =>
      and_then (f x) (λ y,
      and_then (comprehension f l') (λ ys, Return (y :: ys)))
  end.

(** [a // b] and [a % b] on Python integers. *)
Definition floordiv (a b : Z) : Outcome Z :=
  if b =? 0 then Throw ZeroDivisionError else Return (a / b).
Definition modulo (a b : Z) : Outcome Z :=
  if b =? 0 then Throw ZeroDivisionError else Return (a `mod` b).

(** [range(n)] *)
Definition range (n : Z) : list Z := seqZ 0 n.

(** [s.endswith(suffix)] and [s[:-4]] on the characters of a string. *)
Definition endswith (s suffix : string) : bool :=
  bool_decide (String.list_ascii_of_string suffix
                 `suffix_of` String.list_ascii_of_string s).
Definition without_last_four (s : string) : string :=
  let l := String.list_ascii_of_string s in
  String.string_of_list_ascii (take (length l - 4) l).

(** [zip(iterator, iterator)] over one iterator: consecutive pairs, an odd
    last element is dropped. *)
Fixpoint zip_iterator (l : list Z) : list (Z * Z) :=
  match l with
  | a :: b :: l' => (a, b) :: zip_iterator l'
  | _ => []
  end.

(** The MDAnalysis universe is outside the sources; this record keeps what
    the handler hands to it: the arguments of [Universe.empty], the
    dimensions, the topology attributes and the positions of the atoms,
    which are numbered from 0 ([atom.ix]). *)
Record Universe : Type := mkUniverse {
  n_atoms : Z;
  n_residues : Z;
  n_segments : Z;
  atom_resindex : list Z;
  residue_segindex : list Z;
  dimensions : list float;
  resids : list Z;
  bonds : option (list (Z * Z));
  resnames : option (list string);
  names : option (list string);
  positions : gmap Z Position
}.

Record t : Type := mk {
  _filename : string;
  _names_within_composite_object : list string;
  _filename_without_ending : string;
  _current_file_index : Z;
  _number_of_atoms : Z;
  _universe : Universe;
  _get_atom : StateId → Result Z
}.

(** [identifier[i]] on a tuple of non-negative integers. *)
Definition identifier_getitem (identifier : StateId) (i : Z) : Result Z :=
  match list_getitem identifier i with
  | Ok x => Ok (Z.of_nat x)
  | Raise e => Raise e
  end.

Section PdbOutputHandler.
Variable setting : Setting.

Definition __init__ (filename : string)
    (names_within_composite_object : list string)
    (bonds_within_composite_object : list Z) (starting_integer : Z) : Outcome t :=
  if negb (initialized setting) then Throw (Python ConfigurationError)
  else if negb (endswith filename ".pdb") then Throw (Python ConfigurationError)
  else if 3 <? dimension setting then Throw (Python ConfigurationError)
  else
    let number_of_atoms :=
      number_of_root_nodes setting * number_of_nodes_per_root_node setting in
    and_then
      (comprehension
         (λ index, floordiv index (number_of_nodes_per_root_node setting))
         (range number_of_atoms)) (λ atom_resindex,
    and_then
      (comprehension
         (λ index, of_result (list_getitem (system_lengths setting) index))
         (range (dimension setting))) (λ lengths,
    let dimensions :=
      lengths ++ replicate (Z.to_nat (3 - dimension setting)) 0%float
              ++ replicate 3 0%float in
    let get_atom :=
      if number_of_node_levels setting =? 1
      then λ identifier, identifier_getitem identifier 0
      else λ identifier,
             match identifier_getitem identifier 0,
                   identifier_getitem identifier 1 with
             | Ok i, Ok j => Ok (i * number_of_nodes_per_root_node setting + j)
             | Raise e, _ => Raise e
             | _, Raise e => Raise e
             end in
    let number_of_residues := Z.of_nat (Z.to_nat (number_of_root_nodes setting)) in
    let resids := (λ index, index + 1) <$> range number_of_residues in
    and_then
      (match bonds_within_composite_object with
       | [] => Return None
       | _ =>
           if negb (Z.of_nat (length bonds_within_composite_object) `mod` 2 =? 0)
           then Throw (Python ConfigurationError)
           else
             let bonds :=
               composite_index ← range (number_of_root_nodes setting);
               (λ index,
                  index + composite_index * number_of_nodes_per_root_node setting)
                 <$> bonds_within_composite_object in
             Return (Some (zip_iterator bonds))
       end) (λ bonds,
    and_then
      (match names_within_composite_object with
       | [] => Return None
       | _ =>
           if negb (Z.of_nat (length names_within_composite_object)
                    =? number_of_nodes_per_root_node setting)
           then Throw (Python ConfigurationError)
           else
             and_then
               (comprehension
                  (λ ix,
                     and_then
                       (modulo ix (number_of_nodes_per_root_node setting))
                       (λ i, of_result
                               (list_getitem names_within_composite_object i)))
                  (range number_of_atoms)) (λ names,
             Return
               (Some (replicate (Z.to_nat number_of_residues)
                        (String.concat "" names_within_composite_object),
                      names)))
       end) (λ resnames_names,
    Return
      (mk filename names_within_composite_object (without_last_four filename)
         starting_integer number_of_atoms
         (mkUniverse number_of_atoms (number_of_root_nodes setting) 1
            atom_resindex
            (replicate (Z.to_nat (number_of_root_nodes setting)) 0)
            dimensions resids bonds
            (fst <$> resnames_names) (snd <$> resnames_names) ∅)
         get_atom))))).
End PdbOutputHandler.

(** [self._universe.atoms[index]]: the number of the atom, negative indices
    counting from the end. *)
Definition atom (self : t) (index : Z) : Result Z :=
  let n := n_atoms (_universe self) in
  let i := if index <? 0 then index + n else index in
  if (0 <=? i) && (i <? n) then Ok i else Raise IndexError.

(** [numpy.float32(x)], read back as a Python float: the binary32 number
    nearest to [x], ties to even, infinite beyond the binary32 range. *)
Definition float32 (x : float) : float :=
  FloatOps.SF2Prim
    match FloatOps.Prim2SF x with
    | SpecFloat.S754_finite s m e => SpecFloat.binary_round 24 128 s m e
    | special => special
    end.

(** What numpy makes of a list of floats assigned to a row of three
    binary32 numbers: three components are converted one by one, a single
    component is broadcast to the three, any other number of components is
    a [ValueError]. *)
Definition float32_row (p : Position) : Result Position :=
  match p with
  | [x] => Ok [float32 x; float32 x; float32 x]
  | [x; y; z] => Ok [float32 x; float32 y; float32 z]
  | _ => Raise ValueError
  end.

Definition store_position (ix : Z) (row : Position) (self : t) : t :=
  let u := _universe self in
  mk (_filename self) (_names_within_composite_object self)
    (_filename_without_ending self) (_current_file_index self)
    (_number_of_atoms self)
    (mkUniverse (n_atoms u) (n_residues u) (n_segments u) (atom_resindex u)
       (residue_segindex u) (dimensions u) (resids u) (bonds u) (resnames u)
       (names u) (<[ix:=row]> (positions u)))
    (_get_atom self).

(** [atom.position = p] for the atom number [ix].  MDAnalysis is outside
    the sources: its setter assigns [p] to the row [ix] of the binary32
    array of the positions of the universe. *)
Definition set_position (ix : Z) (p : Position) : M t unit :=
  row <- lift (float32_row p) ;;
  modify (store_position ix row).

Definition increment_file_index (self : t) : t :=
  mk (_filename self) (_names_within_composite_object self)
    (_filename_without_ending self) (_current_file_index self + 1)
    (_number_of_atoms self) (_universe self) (_get_atom self).

(** [write]: the positions of the leaf units go to their atoms, the universe
    is written to the file named after the counter, the counter goes up.
    The [Writer] is outside the sources: the result is what it is handed,
    the name of the file and the universe. *)
Definition write (extracted_global_state : list Node) : M t (string * Universe) :=
  for_each extracted_global_state (λ root_cnode,
    for_each (yield_leaf_nodes root_cnode) (λ leaf_node,
      self <- get ;;
      index <- lift (_get_atom self (identifier (value leaf_node))) ;;
      ix <- lift (atom self index) ;;
      set_position ix (position (value leaf_node)))) ;;
  self <- get ;;
  let file := (_filename_without_ending self
               +:+ pretty (_current_file_index self) +:+ ".pdb")%string in
  modify increment_file_index ;;
  ret (file, _universe self).

End PdbOutputHandler.

(** * Specification vocabulary *)

(** All identifiers stored in a dictionary of identifier lists. *)
Definition ids_of (d : gmap Cell (list StateId)) : list StateId :=
  mjoin (map_to_list d).*2.

(** The identifiers the index knows: occupants, surplus and the active one. *)
Definition stored_identifiers (self : SingleActiveCellOccupancy) : list StateId :=
  ids_of (_occupants self) ++ ids_of (_surplus self)
    ++ option_list (_active_unit_identifier self).

(** The relevance filter chosen by the constructor, as a total test: a unit
    is relevant when the filter returns [True] on it. *)
Definition is_relevant (self : SingleActiveCellOccupancy) (unit : Unit) : bool :=
  match _is_relevant_unit self unit with
  | Ok b => b
  | Raise _ => false
  end.

(** Identifiers of the relevant units on the cell level of a state. *)
Definition relevant_identifiers (self : SingleActiveCellOccupancy)
    (state : list Node) : list StateId :=
  identifier <$> List.filter (is_relevant self)
                   (units_on_cell_level (_cell_level self) state).

(** States of the index after [__init__], [initialize] on a global state and
    any number of [update] calls that returned. *)
Inductive reachable (number_of_node_levels : Z) (cells : Cells) (cell_level : Z)
    (maximum_number_occupants : Z) (charge : option string)
    (extracted_global_state : list Node) : SingleActiveCellOccupancy → Prop :=
| reachable_initialize self0 self :
    __init__ number_of_node_levels cells cell_level maximum_number_occupants charge
      = Ok self0 →
    initialize extracted_global_state self0 = (Ok tt, self) →
    reachable number_of_node_levels cells cell_level maximum_number_occupants charge
      extracted_global_state self
| reachable_update self extracted_active_global_state self' :
    reachable number_of_node_levels cells cell_level maximum_number_occupants charge
      extracted_global_state self →
    update extracted_active_global_state self = (Ok tt, self') →
    reachable number_of_node_levels cells cell_level maximum_number_occupants charge
      extracted_global_state self'.

(** ** What a returning [update] does *)

(** The state after the previously active identifier went back into the
    dictionaries (lines 177-182 of the source). *)
Definition give_back (self : SingleActiveCellOccupancy) (a : StateId) (c0 : Cell)
    (l0 : list StateId) : SingleActiveCellOccupancy :=
  if (Z.of_nat (length l0) <? _maximum_number_occupants self)
     || _number_occupants_not_bounded self
  then set_occupants (insert c0 (l0 ++ [a])) self
  else set_surplus (insert c0 (default [] (_surplus self !! c0) ++ [a])) self.

Inductive gave_back (self : SingleActiveCellOccupancy)
  : SingleActiveCellOccupancy → Prop :=
| gave_back_none :
    _active_unit_identifier self = None → gave_back self self
| gave_back_some a c0 l0 :
    _active_unit_identifier self = Some a →
    _active_cell self = Some c0 →
    _occupants self !! c0 = Some l0 →
    gave_back self (give_back self a c0 l0).

Definition activate (u : Unit) (self : SingleActiveCellOccupancy)
  : SingleActiveCellOccupancy :=
  set_active_unit_identifier (Some (identifier u))
    (set_active_cell (Some (position_to_cell (_cells self) (position u))) self).

Inductive updated (self : SingleActiveCellOccupancy) (u : Unit)
  : SingleActiveCellOccupancy → Prop :=
| updated_same :
    Some (identifier u) = _active_unit_identifier self →
    updated self u
      (set_active_cell (Some (position_to_cell (_cells self) (position u))) self)
| updated_filtered self1 :
    Some (identifier u) ≠ _active_unit_identifier self →
    gave_back self self1 →
    _is_relevant_unit self u = Ok false →
    updated self u (set_active_cell None (set_active_unit_identifier None self1))
| updated_from_occupants self1 l k :
    let c := position_to_cell (_cells self) (position u) in
    Some (identifier u) ≠ _active_unit_identifier self →
    gave_back self self1 →
    _is_relevant_unit self u = Ok true →
    _occupants self1 !! c = Some l →
    list_remove (identifier u) l = Ok k →
    _surplus self1 !! c ≠ Some [] →
    updated self u (set_occupants (insert c k) (activate u self1))
| updated_from_surplus self1 lo l k :
    let c := position_to_cell (_cells self) (position u) in
    Some (identifier u) ≠ _active_unit_identifier self →
    gave_back self self1 →
    _is_relevant_unit self u = Ok true →
    _occupants self1 !! c = Some lo →
    identifier u ∉ lo →
    _surplus self1 !! c = Some l →
    list_remove (identifier u) l = Ok k →
    updated self u
      (set_surplus (if bool_decide (k = []) then delete c else insert c k)
         (activate u self1)).

(** ** The invariant of the index *)

(** What never changes after construction. *)
Definition same_configuration (self self' : SingleActiveCellOccupancy) : Prop :=
  _cells self' = _cells self ∧ _cell_level self' = _cell_level self ∧
  _maximum_number_occupants self' = _maximum_number_occupants self ∧
  _number_occupants_not_bounded self' = _number_occupants_not_bounded self ∧
  _is_relevant_unit self' = _is_relevant_unit self.

Record invariant (population : list StateId) (self : SingleActiveCellOccupancy)
  : Prop := mkInvariant {
  inv_bounded :
    _number_occupants_not_bounded self = false →
    ∀ c l, _occupants self !! c = Some l →
           Z.of_nat (length l) ≤ _maximum_number_occupants self;
  inv_population : stored_identifiers self ≡ₚ population;
  inv_unbounded :
    _number_occupants_not_bounded self = true → _surplus self = ∅
}.

(** Identifiers of the relevant units among [units]. *)
Definition relevant_among (self : SingleActiveCellOccupancy) (units : list Unit)
  : list StateId :=
  identifier <$> List.filter (is_relevant self) units.

(** Every cell a position is mapped to has an occupants list. *)
Definition covers (cells : Cells) (self : SingleActiveCellOccupancy) : Prop :=
  ∀ p, is_Some (_occupants self !! position_to_cell cells p).

(** What the dictionaries look like between calls: every cell a position is
    mapped to has an occupants list, no surplus list is empty, and an active
    identifier comes with the cell of some position. *)
Definition well_formed (self : SingleActiveCellOccupancy) : Prop :=
  covers (_cells self) self ∧
  (∀ c l, _surplus self !! c = Some l → l ≠ []) ∧
  match _active_unit_identifier self with
  | Some _ => ∃ p, _active_cell self = Some (position_to_cell (_cells self) p)
  | None => True
  end.

(** The new active unit is where the index can find it: its identifier is in
    the occupants list or in the surplus list of the cell of its position. *)
Definition stored_at_its_cell (self : SingleActiveCellOccupancy) (u : Unit) : Prop :=
  let c := position_to_cell (_cells self) (position u) in
  ∃ l, (_occupants self !! c = Some l ∨ _surplus self !! c = Some l) ∧
       identifier u ∈ l.

(** ** Example configuration

    Two cells along the first coordinate, split at 0.5; leaf units on cell
    level 1, optionally carrying a charge named "charge". *)

Definition example_cells : Cells :=
  mkCells [0%nat; 1%nat]
    (λ p, match p with
          | x :: _ => if PrimFloat.ltb x 0.5%float then 0%nat else 1%nat
          | [] => 0%nat
          end).

Definition example_leaf (i : nat) (x : float) (q : option float) : Node :=
  mkNode (mkUnit [i] [x; 0.25%float; 0.75%float]
            ((λ c, {["charge"%string := c]}) <$> q) None None) [].

(** Three units in cell 0. *)
Definition example_state : list Node :=
  [example_leaf 0 0.125%float None; example_leaf 1 0.25%float None;
   example_leaf 2 0.375%float None].

(** The index constructed for the example cells on cell level 1, without a
    charge filter ([setting.number_of_node_levels] is 1). *)
Definition example_index (maximum_number_occupants : Z) : SingleActiveCellOccupancy :=
  match __init__ 1 example_cells 1 maximum_number_occupants None with
  | Ok self => self
  | Raise _ => CellOccupancy__init__ example_cells 1 maximum_number_occupants
  end.

(** The state a call leaves the index in. *)
Definition state_after (m : Method unit) (self : SingleActiveCellOccupancy)
  : SingleActiveCellOccupancy := (m self).2.

(** Capacity 1, initialized with the three units, then unit 0 activated. *)
Definition example_initialized : SingleActiveCellOccupancy :=
  state_after (initialize example_state) (example_index 1).
Definition example_updated : SingleActiveCellOccupancy :=
  state_after (update [example_leaf 0 0.125%float None]) example_initialized.

(** A global state in which the first unit moves along the first axis. *)
Definition example_moving_state : list Node :=
  [mkNode (mkUnit [0%nat] [0.125%float; 0.25%float; 0.75%float] None
             (Some [1%float; 0%float; 0%float]) (Some 0%float)) [];
   example_leaf 1 0.625%float None].

(** An index that only stores units whose charge "charge" is not zero. *)
Definition example_charged_index : SingleActiveCellOccupancy :=
  match __init__ 1 example_cells 1 1 (Some "charge"%string) with
  | Ok self => self
  | Raise _ => CellOccupancy__init__ example_cells 1 1
  end.

(** The handler of the tests: chain time 0.7, first asked at time stamp 0. *)
Definition example_end_of_chain : EndOfChainEventHandler.t :=
  (EndOfChainEventHandler.send_event_time 0
     (EndOfChainEventHandler.mk (7 # 10) 0)).2.

(** The example index after the active unit switched from unit 0 to unit 1,
    which was a surplus identifier of cell 0. *)
Definition example_switched : SingleActiveCellOccupancy :=
  state_after (update [example_leaf 1 0.25%float None]) example_updated.

(** A global state with one charged and one neutral unit, for the index
    with the charge filter; the charged unit is then made active. *)
Definition example_charged_state : list Node :=
  [example_leaf 0 0.125%float (Some 1%float);
   example_leaf 1 0.625%float (Some 0%float)].
Definition example_charged_initialized : SingleActiveCellOccupancy :=
  state_after (initialize example_charged_state) example_charged_index.
Definition example_charged_updated : SingleActiveCellOccupancy :=
  state_after (update [example_leaf 0 0.125%float (Some 1%float)])
    example_charged_initialized.

(** ** The layout [initialize] produces *)

(** Identifiers of the relevant units among [units] whose position lies in
    the cell [c], in the order of [units]. *)
Definition identifiers_at (self : SingleActiveCellOccupancy) (units : list Unit)
    (c : Cell) : list StateId :=
  identifier <$>
    List.filter (λ u, is_relevant self u
                      && bool_decide (position_to_cell (_cells self) (position u) = c))
      units.

Definition identifiers_in_cell (self : SingleActiveCellOccupancy)
    (state : list Node) (c : Cell) : list StateId :=
  identifiers_at self (units_on_cell_level (_cell_level self) state) c.

(** The dictionaries hold the identifiers of [units] cell by cell, in order:
    the first [maximum_number_occupants] of a cell as its occupants, the
    rest as its surplus (all as occupants when the capacity is unbounded). *)
Definition laid_out (self0 : SingleActiveCellOccupancy) (units : list Unit)
    (self : SingleActiveCellOccupancy) : Prop :=
  ∀ c, is_Some (_occupants self0 !! c) →
    let ids := identifiers_at self0 units c in
    let n := Z.to_nat (_maximum_number_occupants self0) in
    if _number_occupants_not_bounded self0
    then _occupants self !! c = Some ids ∧ _surplus self !! c = None
    else _occupants self !! c = Some (take n ids) ∧
         _surplus self !! c
           = if bool_decide (drop n ids = []) then None else Some (drop n ids).

(** ** Example handlers *)

(** The state of the cell-veto handler once the leaf nodes of the target
    branch are appended (lines 126-129 of the source). *)
Definition appended_target (target : Node) (self : LeafUnitCellVetoEventHandler.t)
  : LeafUnitCellVetoEventHandler.t :=
  LeafUnitCellVetoEventHandler.mk
    (LeafUnitCellVetoEventHandler._estimator self)
    (LeafUnitCellVetoEventHandler._potential self)
    (LeafUnitCellVetoEventHandler._charge self)
    (LeafUnitCellVetoEventHandler._charges self)
    (LeafUnitCellVetoEventHandler._state self ++ [target])
    (LeafUnitCellVetoEventHandler._leaf_cnodes self ++ yield_leaf_nodes target)
    (LeafUnitCellVetoEventHandler._leaf_units self
       ++ (value <$> yield_leaf_nodes target))
    (LeafUnitCellVetoEventHandler._active_leaf_unit_index self).

(** A cell-veto handler for a potential of two charges and the charge
    "charge", holding one active leaf unit as after [send_event_time]. *)
Definition example_cell_veto_handler : LeafUnitCellVetoEventHandler.t :=
  match LeafUnitCellVetoEventHandler.__init__ (mkEstimator (mkPotential 2))
          (Some "charge"%string) with
  | Ok self =>
      LeafUnitCellVetoEventHandler.mk
        (LeafUnitCellVetoEventHandler._estimator self)
        (LeafUnitCellVetoEventHandler._potential self)
        (LeafUnitCellVetoEventHandler._charge self)
        (LeafUnitCellVetoEventHandler._charges self)
        [example_leaf 0 0.125%float (Some 1%float)]
        [example_leaf 0 0.125%float (Some 1%float)]
        [value (example_leaf 0 0.125%float (Some 1%float))]
        0
  | Raise _ => LeafUnitCellVetoEventHandler.CellVetoEventHandler__init__
                 (mkEstimator (mkPotential 2))
  end.

(** A composite target branch with two leaf nodes. *)
Definition example_composite : Node :=
  mkNode (mkUnit [1%nat] [0.5%float; 0.5%float; 0.5%float] None None None)
    [mkNode (mkUnit [1%nat; 0%nat] [0.5%float; 0.5%float; 0.5%float]
               (Some {["charge"%string := 1%float]}) None None) [];
     mkNode (mkUnit [1%nat; 1%nat] [0.625%float; 0.5%float; 0.5%float]
               (Some {["charge"%string := (-1)%float]}) None None) []].

(** An end-of-run handler for the final time 1.0, and a stand-in for the
    helper of the base class that stores the in-state. *)
Definition example_end_of_run : FinalTimeEndOfRunEventHandler.t :=
  match FinalTimeEndOfRunEventHandler.__init__ 1%float None with
  | Ok self => self
  | Raise _ => FinalTimeEndOfRunEventHandler.EndOfRunEventHandler__init__ None
  end.
Definition example_store_in_state (cnodes : list Node)
  : M FinalTimeEndOfRunEventHandler.t unit :=
  modify (λ s, FinalTimeEndOfRunEventHandler.mk
                 (FinalTimeEndOfRunEventHandler._output_handler s)
                 (FinalTimeEndOfRunEventHandler._event_time s) cnodes).

(** ** What the constructor of [PdbOutputHandler] accepts *)

Definition pdb_accepted (setting : PdbOutputHandler.Setting) (filename : string)
    (names_within_composite_object : list string)
    (bonds_within_composite_object : list Z) : Prop :=
  PdbOutputHandler.initialized setting = true ∧
  PdbOutputHandler.endswith filename ".pdb" = true ∧
  PdbOutputHandler.dimension setting ≤ 3 ∧
  PdbOutputHandler.dimension setting
    ≤ Z.of_nat (length (PdbOutputHandler.system_lengths setting)) ∧
  Z.of_nat (length bonds_within_composite_object) `mod` 2 = 0 ∧
  (names_within_composite_object = [] ∨
   Z.of_nat (length names_within_composite_object)
     = PdbOutputHandler.number_of_nodes_per_root_node setting).

(** A three-dimensional setting with four composite objects of three point
    masses each, as for water molecules. *)
Definition example_setting : PdbOutputHandler.Setting :=
  PdbOutputHandler.mkSetting true 3 [1%float; 1%float; 1%float] 4 3 2.

Definition example_pdb_handler : PdbOutputHandler.t :=
  match PdbOutputHandler.__init__ example_setting "water.pdb"
          ["O"; "H"; "H"]%string [0; 1; 0; 2] 0 with
  | PdbOutputHandler.Return self => self
  | PdbOutputHandler.Throw _ =>
      PdbOutputHandler.mk "" [] "" 0 0
        (PdbOutputHandler.mkUniverse 0 0 0 [] [] [] [] None None None ∅)
        (λ _, Raise IndexError)
  end.

(** The handler that an accepted call of the constructor returns. *)
Definition pdb_constructed (setting : PdbOutputHandler.Setting) (filename : string)
    (names_within : list string) (bonds_within : list Z) (starting_integer : Z)
  : PdbOutputHandler.t :=
  let roots := PdbOutputHandler.number_of_root_nodes setting in
  let nodes := PdbOutputHandler.number_of_nodes_per_root_node setting in
  PdbOutputHandler.mk filename names_within
    (PdbOutputHandler.without_last_four filename) starting_integer (roots * nodes)
    (PdbOutputHandler.mkUniverse (roots * nodes) roots 1
       ((λ index, index / nodes) <$> PdbOutputHandler.range (roots * nodes))
       (replicate (Z.to_nat roots) 0)
       (take (Z.to_nat (PdbOutputHandler.dimension setting))
          (PdbOutputHandler.system_lengths setting)
        ++ replicate (Z.to_nat (3 - PdbOutputHandler.dimension setting)) 0%float
        ++ replicate 3 0%float)
       ((λ index, index + 1)
          <$> PdbOutputHandler.range (Z.of_nat (Z.to_nat roots)))
       (match bonds_within with
        | [] => None
        | _ => Some (PdbOutputHandler.zip_iterator
                       (composite_index ← PdbOutputHandler.range roots;
                        (λ index, index + composite_index * nodes)
                          <$> bonds_within))
        end)
       (match names_within with
        | [] => None
        | _ => Some (replicate (Z.to_nat (Z.of_nat (Z.to_nat roots)))
                       (String.concat "" names_within))
        end)
       (match names_within with
        | [] => None
        | _ => Some ((λ ix, default ""%string
                              (names_within !! Z.to_nat (ix `mod` nodes)))
                       <$> PdbOutputHandler.range (roots * nodes))
        end)
       ∅)
    (if PdbOutputHandler.number_of_node_levels setting =? 1
     then λ identifier, PdbOutputHandler.identifier_getitem identifier 0
     else λ identifier,
            match PdbOutputHandler.identifier_getitem identifier 0,
                  PdbOutputHandler.identifier_getitem identifier 1 with
            | Ok i, Ok j => Ok (i * nodes + j)
            | Raise e, _ => Raise e
            | _, Raise e => Raise e
            end).

(** Successive calls of [write], one for each of the given global states;
    the result lists what the writer was handed in each call. *)
Fixpoint write_each (states : list (list Node))
  : M PdbOutputHandler.t (list (string * PdbOutputHandler.Universe)) :=
  match states with
  | [] => ret []
  | state :: states' =>
      written <- PdbOutputHandler.write state ;;
      rest <- write_each states' ;;
      ret (written :: rest)
  end.

(** The atom an identifier addresses: [self._get_atom(identifier)] with the
    look-up in [self._universe.atoms] carried out. *)
Definition pdb_atom_of (self : PdbOutputHandler.t) (identifier : StateId)
  : Result Z :=
  match PdbOutputHandler._get_atom self identifier with
  | Ok index => PdbOutputHandler.atom self index
  | Raise e => Raise e
  end.

(** What [write] assigns for one leaf unit: the atom and the row stored
    there, or the exception of the look-up or of the assignment. *)
Definition pdb_assignment (self : PdbOutputHandler.t) (leaf_node : Node)
  : Result (Z * Position) :=
  match pdb_atom_of self (identifier (value leaf_node)) with
  | Ok ix =>
      match PdbOutputHandler.float32_row (position (value leaf_node)) with
      | Ok row => Ok (ix, row)
      | Raise e => Raise e
      end
  | Raise e => Raise e
  end.

(** The position of one leaf unit stored at its atom. *)
Definition pdb_store (self : PdbOutputHandler.t) (stored : gmap Z Position)
    (leaf_node : Node) : gmap Z Position :=
  match pdb_assignment self leaf_node with
  | Ok (ix, row) => <[ix:=row]> stored
  | Raise _ => stored
  end.

(** Two universes with the same topology: all but the positions agree. *)
Definition same_topology (u u' : PdbOutputHandler.Universe) : Prop :=
  PdbOutputHandler.n_atoms u' = PdbOutputHandler.n_atoms u ∧
  PdbOutputHandler.n_residues u' = PdbOutputHandler.n_residues u ∧
  PdbOutputHandler.n_segments u' = PdbOutputHandler.n_segments u ∧
  PdbOutputHandler.atom_resindex u' = PdbOutputHandler.atom_resindex u ∧
  PdbOutputHandler.residue_segindex u' = PdbOutputHandler.residue_segindex u ∧
  PdbOutputHandler.dimensions u' = PdbOutputHandler.dimensions u ∧
  PdbOutputHandler.resids u' = PdbOutputHandler.resids u ∧
  PdbOutputHandler.bonds u' = PdbOutputHandler.bonds u ∧
  PdbOutputHandler.resnames u' = PdbOutputHandler.resnames u ∧
  PdbOutputHandler.names u' = PdbOutputHandler.names u.

(** Two handlers that differ at most in the positions of the atoms and in
    the counter of the files. *)
Definition pdb_frame (self self' : PdbOutputHandler.t) : Prop :=
  PdbOutputHandler._filename self' = PdbOutputHandler._filename self ∧
  PdbOutputHandler._names_within_composite_object self'
    = PdbOutputHandler._names_within_composite_object self ∧
  PdbOutputHandler._filename_without_ending self'
    = PdbOutputHandler._filename_without_ending self ∧
  PdbOutputHandler._number_of_atoms self' = PdbOutputHandler._number_of_atoms self ∧
  PdbOutputHandler._get_atom self' = PdbOutputHandler._get_atom self ∧
  same_topology (PdbOutputHandler._universe self)
    (PdbOutputHandler._universe self').

(** A global state of two water molecules, as the output handler gets it. *)
Definition example_water (i : nat) (x : float) : Node :=
  let unit id p := mkUnit id p None None None in
  mkNode (unit [i] [x; 0; 0]%float)
    [mkNode (unit [i; 0%nat] [x; 0; 0]%float) [];
     mkNode (unit [i; 1%nat] [x; 0x1.999999999999ap-4; 0]%float) [];
     mkNode (unit [i; 2%nat] [x; 0; 1]%float) []].
Definition example_waters : list Node :=
  [example_water 0 0%float; example_water 1 5%float].

(** A state of one point mass whose position has two components. *)
Definition example_flat_waters : list Node :=
  [mkNode (mkUnit [0%nat] [0; 0]%float None None None)
     [mkNode (mkUnit [0; 0]%nat [0; 0]%float None None None) []]].

(** * Proof automation *)

Ltac unfold_method :=
  unfold occupants_remove, surplus_remove, surplus_pop, surplus_delitem,
    surplus_get_or_True, occupants_append, surplus_setdefault_append,
    occupants_getitem, surplus_getitem, try_except, assert, bind, ret, raise,
    get, modify, lift, dict_getitem in *.

(** * Properties *)

(** ** Lists *)

Section list_lemmas.
Context `{EqDecision A}.
Implicit Types (x : A) (l k : list A).

Lemma list_remove_Ok x l k : list_remove x l = Ok k → l ≡ₚ x :: k.
Proof.
  revert k. induction l as [|y l IH]; intros k; simpl; [done|].
  destruct (decide (y = x)) as [->|Hne].
  - by intros [= ->].
  - destruct (list_remove x l) as [k'|e] eqn:Hr; [|done].
    intros [= <-]. rewrite (IH k' eq_refl). apply perm_swap.
Qed.

Lemma list_remove_Raise x l e :
  list_remove x l = Raise e → e = ValueError ∧ x ∉ l.
Proof.
  induction l as [|y l IH]; simpl.
  - intros [= <-]. split; [done|]. apply not_elem_of_nil.
  - destruct (decide (y = x)) as [->|Hne]; [done|].
    destruct (list_remove x l) as [k'|e'] eqn:Hr; [done|].
    intros [= <-]. destruct (IH eq_refl) as [-> Hx]. split; [done|].
    rewrite elem_of_cons. intros [->|?]; done.
Qed.

Lemma list_remove_elem_of x l : x ∈ l → ∃ k, list_remove x l = Ok k.
Proof.
  intros Hx. destruct (list_remove x l) as [k|e] eqn:Hr; [by eexists|].
  by destruct (list_remove_Raise _ _ _ Hr).
Qed.

Lemma list_remove_length x l k :
  list_remove x l = Ok k → length l = S (length k).
Proof. intros Hr. by rewrite (list_remove_Ok _ _ _ Hr). Qed.

Lemma list_pop_Ok l x k : list_pop l = Ok (x, k) → l = k ++ [x].
Proof.
  revert k. induction l as [|y l IH]; intros k; simpl; [done|].
  destruct l as [|z l].
  - by intros [= -> <-].
  - destruct (list_pop (z :: l)) as [[x' k']|e] eqn:Hp; [|done].
    intros [= -> <-]. by rewrite (IH k' eq_refl).
Qed.

Lemma list_pop_nil_iff l : list_pop l = Raise IndexError ↔ l = [].
Proof.
  split; [|by intros ->].
  induction l as [|y l IH]; [done|]. simpl.
  destruct l as [|z l]; [done|].
  destruct (list_pop (z :: l)) as [[x' k']|e] eqn:Hp; [done|].
  intros [= ->]. by specialize (IH eq_refl).
Qed.
Lemma list_pop_Raise l e : list_pop l = Raise e → e = IndexError.
Proof.
  induction l as [|y l IH]; simpl; [by intros [= <-]|].
  destruct l as [|z l]; [done|].
  destruct (list_pop (z :: l)) as [[x' k']|e'] eqn:Hp; [done|].
  intros [= <-]. by apply IH.
Qed.
End list_lemmas.

(** ** Dictionaries of identifier lists *)

Section ids_of_lemmas.
Implicit Types (d : gmap Cell (list StateId)) (c : Cell) (l k : list StateId).

Lemma ids_of_empty : ids_of ∅ = [].
Proof. unfold ids_of. by rewrite map_to_list_empty. Qed.

Lemma ids_of_insert_fresh d c l :
  d !! c = None → ids_of (<[c:=l]> d) ≡ₚ l ++ ids_of d.
Proof. intros Hc. unfold ids_of. by rewrite map_to_list_insert. Qed.

Lemma ids_of_lookup d c l :
  d !! c = Some l → ids_of d ≡ₚ l ++ ids_of (delete c d).
Proof. intros Hc. unfold ids_of. by rewrite <-(map_to_list_delete d c l Hc). Qed.

Lemma ids_of_insert d c l : ids_of (<[c:=l]> d) ≡ₚ l ++ ids_of (delete c d).
Proof.
  rewrite <-insert_delete_eq. apply ids_of_insert_fresh, lookup_delete_eq.
Qed.

Lemma ids_of_insert_app d c l k :
  d !! c = Some l → ids_of (<[c:=l ++ k]> d) ≡ₚ ids_of d ++ k.
Proof.
  intros Hc. rewrite ids_of_insert, (ids_of_lookup d c l Hc).
  rewrite <-!(assoc_L (++)). f_equiv. apply Permutation_app_comm.
Qed.

Lemma ids_of_setdefault_app d c k :
  ids_of (<[c:=default [] (d !! c) ++ k]> d) ≡ₚ ids_of d ++ k.
Proof.
  destruct (d !! c) as [l|] eqn:Hc; simpl.
  - by apply ids_of_insert_app.
  - rewrite ids_of_insert_fresh by done. apply Permutation_app_comm.
Qed.

Lemma ids_of_insert_remove d c l k x :
  d !! c = Some l → list_remove x l = Ok k →
  x :: ids_of (<[c:=k]> d) ≡ₚ ids_of d.
Proof.
  intros Hc Hr. rewrite ids_of_insert, (ids_of_lookup d c l Hc).
  by rewrite (list_remove_Ok _ _ _ Hr).
Qed.

Lemma ids_of_delete_nil d c : d !! c = Some [] → ids_of (delete c d) ≡ₚ ids_of d.
Proof. intros Hc. by rewrite (ids_of_lookup d c [] Hc). Qed.

Lemma elem_of_ids_of d x :
  x ∈ ids_of d ↔ ∃ c l, d !! c = Some l ∧ x ∈ l.
Proof.
  unfold ids_of. rewrite list_elem_of_join. split.
  - intros (l & Hx & Hl). apply list_elem_of_fmap in Hl as ([c l'] & -> & Hcl).
    apply elem_of_map_to_list in Hcl. eauto.
  - intros (c & l & Hc & Hx). exists l. split; [done|].
    apply list_elem_of_fmap. exists (c, l). split; [done|].
    by apply elem_of_map_to_list.
Qed.

Lemma ids_of_all_nil d : (∀ c l, d !! c = Some l → l = []) → ids_of d = [].
Proof.
  intros Hd. destruct (ids_of d) as [|x k] eqn:Hk; [done|].
  assert (Hx : x ∈ ids_of d) by (rewrite Hk; left).
  apply elem_of_ids_of in Hx as (c & l & Hc & Hx).
  rewrite (Hd _ _ Hc) in Hx. by apply not_elem_of_nil in Hx.
Qed.
End ids_of_lemmas.

Lemma yield_surplus_ids_of self : yield_surplus self = ids_of (_surplus self).
Proof. unfold yield_surplus, ids_of. by rewrite list_join_bind. Qed.

(** ** Loops *)

Section for_each_lemmas.
Context {S A : Type}.
Implicit Types (body : A → M S unit) (l : list A).

(** A property kept by every iteration, returning or raising, holds when
    the loop stops. *)
Lemma for_each_preserves (P : S → Prop) body l s r s' :
  (∀ x s r s', P s → body x s = (r, s') → P s') →
  P s → for_each l body s = (r, s') → P s'.
Proof.
  intros Hbody. revert s. induction l as [|x l IH]; intros s HP; simpl.
  - unfold ret. by intros [= <- <-].
  - unfold bind. destruct (body x s) as [[[]|e] s1] eqn:Hx.
    + apply IH. by eapply Hbody.
    + intros [= <- <-]. by eapply Hbody.
Qed.

(** Loop invariant over the elements already processed, for a loop that
    returns. *)
Lemma for_each_Ok (I : list A → S → Prop) body l s s' :
  (∀ done x s s', I done s → body x s = (Ok tt, s') → I (done ++ [x]) s') →
  I [] s → for_each l body s = (Ok tt, s') → I l s'.
Proof.
  intros Hbody. revert s s'.
  induction l as [|x l IH] using rev_ind; intros s s' HI.
  - simpl. unfold ret. by intros [= <-].
  - revert s HI.
    assert (Hsplit : ∀ s, for_each (l ++ [x]) body s = (Ok tt, s') →
              ∃ s1, for_each l body s = (Ok tt, s1) ∧ body x s1 = (Ok tt, s')).
    { clear. induction l as [|y l IHl]; simpl; intros s.
      - unfold bind, ret. destruct (body x s) as [[[]|e] s1] eqn:Hx; [|done].
        intros [= <-]. by exists s.
      - unfold bind. destruct (body y s) as [[[]|e] s1]; [|done]. apply IHl. }
    intros s HI Hrun. destruct (Hsplit s Hrun) as (s1 & Hl & Hx).
    eapply Hbody; [|done]. by eapply IH.
Qed.

(** A loop whose iterations all return, returns. *)
Lemma for_each_returns (P : S → Prop) body l s :
  (∀ x s, x ∈ l → P s → ∃ s', body x s = (Ok tt, s') ∧ P s') →
  P s → ∃ s', for_each l body s = (Ok tt, s') ∧ P s'.
Proof.
  revert s. induction l as [|x l IH]; intros s Hbody HP; simpl.
  - by exists s.
  - unfold bind. destruct (Hbody x s) as (s1 & -> & HP1); [left|done|].
    apply IH; [|done]. intros y s2 Hy. apply Hbody. by right.
Qed.
End for_each_lemmas.

(** ** What a returning [update] does *)

Lemma give_back_frame self a c0 l0 :
  let self1 := give_back self a c0 l0 in
  _cells self1 = _cells self ∧ _cell_level self1 = _cell_level self ∧
  _maximum_number_occupants self1 = _maximum_number_occupants self ∧
  _number_occupants_not_bounded self1 = _number_occupants_not_bounded self ∧
  _is_relevant_unit self1 = _is_relevant_unit self ∧
  _active_unit_identifier self1 = _active_unit_identifier self ∧
  _active_cell self1 = _active_cell self.
Proof. unfold give_back. by case_match. Qed.

Lemma update_Ok ags self self' :
  update ags self = (Ok tt, self') →
  ∃ u, units_on_cell_level (_cell_level self) ags = [u] ∧ updated self u self'.
Proof.
  unfold update. unfold bind at 1. unfold get at 1.
  destruct (units_on_cell_level (_cell_level self) ags) as [|u [|u' us]] eqn:Hu;
    [done| |done].
  intros Hrun. exists u. split; [done|]. revert Hrun.
  unfold bind at 1. simpl.
  case_bool_decide as Hid; last first.
  { unfold modify. intros [= <-]. constructor.
    destruct (decide (Some (identifier u) = _active_unit_identifier self));
      [done|by destruct Hid]. }
  unfold bind at 1.
  (* giving back the previous active identifier *)
  match goal with
  | |- context [match ?m self with _ => _ end] =>
      destruct (m self) as [[[]|e] self1] eqn:Hback; [|done]
  end.
  assert (Hgb : gave_back self self1).
  { destruct (_active_unit_identifier self) as [a|] eqn:Ha.
    - unfold_method.
      destruct (_active_cell self) as [c0|] eqn:Hc0; [|done].
      destruct (_occupants self !! c0) as [l0|] eqn:Hl0; [|done].
      replace self1 with (give_back self a c0 l0).
      { by econstructor. }
      unfold give_back. simpl in Hback.
      destruct ((Z.of_nat (length l0) <? _maximum_number_occupants self)
                || _number_occupants_not_bounded self).
      + rewrite Hl0 in Hback. by simplify_eq.
      + by simplify_eq.
    - unfold ret in Hback. simplify_eq. by constructor. }
  clear Hback.
  assert (Hc : _cells self1 = _cells self).
  { destruct Hgb; [done|]. apply give_back_frame. }
  unfold bind at 1, lift at 1.
  destruct (_is_relevant_unit self u) as [[]|e] eqn:Hrel; [| |done].
  - (* relevant *)
    set (c := position_to_cell (_cells self) (position u)).
    unfold_method. simpl.
    destruct (_occupants self1 !! c) as [lo|] eqn:Hlo; simpl; [|done].
    destruct (list_remove (identifier u) lo) as [k|e] eqn:Hrem; simpl.
    + pose proof (updated_from_occupants self u self1 lo k Hid Hgb Hrel) as Hupd.
      simpl in Hupd. fold c in Hupd. specialize (Hupd Hlo Hrem).
      unfold activate in Hupd. rewrite Hc in Hupd. fold c in Hupd.
      destruct (_surplus self1 !! c) as [ls|] eqn:Hls; simpl.
      * case_bool_decide as Hnil; simpl.
        { subst ls. by rewrite Hls. }
        rewrite Hls. simpl. rewrite bool_decide_eq_false_2 by done. simpl.
        intros [= <-]. apply Hupd. by intros [= ->].
      * rewrite Hls. simpl. intros [= <-]. by apply Hupd.
    + destruct (list_remove_Raise _ _ _ Hrem) as [-> Hnotin].
      destruct (_surplus self1 !! c) as [ls|] eqn:Hls; simpl; [|done].
      destruct (list_remove (identifier u) ls) as [k|e] eqn:Hrem'; simpl; [|done].
      rewrite lookup_insert_eq. simpl.
      pose proof (updated_from_surplus self u self1 lo ls k Hid Hgb Hrel) as Hupd.
      simpl in Hupd. fold c in Hupd. specialize (Hupd Hlo Hnotin Hls Hrem').
      unfold activate in Hupd. rewrite Hc in Hupd. fold c in Hupd.
      case_bool_decide as Hnil; simpl; [|by intros [= <-]].
      rewrite lookup_insert_eq. intros [= <-].
      unfold set_surplus in *. simpl in *. by rewrite delete_insert_eq.
  - (* filtered out *)
    unfold_method. intros [= <-]. by eapply updated_filtered.
Qed.

(** No returning [update] ever promotes: when the new active identifier is
    taken out of the occupants of its cell, the surplus dictionary is the
    one left by giving the previous active identifier back. *)
Lemma updated_from_occupants_keeps_surplus self u self' l :
  updated self u self' →
  _active_unit_identifier self = None →
  _is_relevant_unit self u = Ok true →
  _occupants self !! position_to_cell (_cells self) (position u) = Some l →
  identifier u ∈ l →
  _surplus self' = _surplus self ∧
  ∃ k, list_remove (identifier u) l = Ok k ∧
       _occupants self' = <[position_to_cell (_cells self) (position u) := k]>
                            (_occupants self).
Proof.
  intros Hupd Ha Hrel Hl Hin.
  destruct Hupd as [Hsame|self1 Hid Hgb Hrel'|self1 l' k c Hid Hgb _ Hl' Hrem Hs
                   |self1 lo l' k c Hid Hgb _ Hlo Hnotin Hl' Hrem].
  - congruence.
  - congruence.
  - destruct Hgb as [_|a ? ? Ha']; [|congruence]. subst c.
    rewrite Hl in Hl'. injection Hl' as <-. split; [done|]. by exists k.
  - destruct Hgb as [_|a ? ? Ha']; [|congruence]. subst c.
    rewrite Hl in Hlo. injection Hlo as <-. done.
Qed.

Lemma charge_not_zero_Raise name unit e :
  charge_not_zero name unit = Raise e → e = TypeError ∨ e = KeyError.
Proof.
  unfold charge_not_zero, dict_getitem.
  destruct (charge unit) as [d|]; [|intros [= <-]; by left].
  destruct (d !! name); [done|]. intros [= <-]. by right.
Qed.

(** ** The invariant of the index *)

Lemma same_configuration_refl self : same_configuration self self.
Proof. by repeat split. Qed.

Lemma same_configuration_trans self1 self2 self3 :
  same_configuration self1 self2 → same_configuration self2 self3 →
  same_configuration self1 self3.
Proof.
  intros (?&?&?&?&?) (?&?&?&?&?). repeat split; congruence.
Qed.

Lemma gave_back_configuration self self1 :
  gave_back self self1 → same_configuration self self1.
Proof.
  destruct 1 as [|a c0 l0 _ _ _]; [apply same_configuration_refl|].
  pose proof (give_back_frame self a c0 l0) as Hf. simpl in Hf.
  destruct Hf as (?&?&?&?&?&?&?). by repeat split.
Qed.

Lemma updated_configuration self u self' :
  updated self u self' → same_configuration self self'.
Proof.
  destruct 1 as [?|self1 ? Hgb ?|self1 l k c ? Hgb|self1 lo l k c ? Hgb];
    try apply gave_back_configuration in Hgb; try done.
Qed.

Lemma invariant_perm population population' self :
  population ≡ₚ population' → invariant population self →
  invariant population' self.
Proof. intros Hpp [Hb Hp Hu]. split; [done| |done]. by rewrite <-Hpp. Qed.

(** Appending an identifier to the occupants of a cell, or to its surplus
    when the cell is full, adds it to the population. *)
Lemma give_back_invariant population self a c0 l0 :
  _occupants self !! c0 = Some l0 →
  invariant population (set_active_unit_identifier None self) →
  invariant (population ++ [a])
    (set_active_unit_identifier None (give_back self a c0 l0)).
Proof.
  intros Hl0 [Hb Hp Hu]. unfold stored_identifiers in Hp. simpl in *.
  rewrite app_nil_r in Hp. unfold give_back.
  destruct (Z.of_nat (length l0) <? _maximum_number_occupants self) eqn:Hlt;
    simpl.
  - split; simpl.
    + intros Hnb c l. destruct (decide (c = c0)) as [->|Hne].
      * rewrite lookup_insert_eq. intros [= <-]. rewrite length_app. simpl.
        apply Z.ltb_lt in Hlt. lia.
      * rewrite lookup_insert_ne by done. by apply Hb.
    + unfold stored_identifiers. simpl.
      rewrite (ids_of_insert_app _ _ _ _ Hl0), <-Hp, app_nil_r.
      rewrite <-!(assoc_L (++)). f_equiv. apply Permutation_app_comm.
    + done.
  - destruct (_number_occupants_not_bounded self) eqn:Hnb; simpl.
    + split; simpl.
      * intros ?. congruence.
      * unfold stored_identifiers. simpl.
        rewrite (ids_of_insert_app _ _ _ _ Hl0), <-Hp, app_nil_r.
        rewrite <-!(assoc_L (++)). f_equiv. apply Permutation_app_comm.
      * auto.
    + split; simpl.
      * intros ? c l ?. by apply (Hb eq_refl c).
      * unfold stored_identifiers. simpl.
        by rewrite ids_of_setdefault_app, <-Hp, app_nil_r, (assoc_L (++)).
      * intros ?. congruence.
Qed.

(** Giving the previous active identifier back keeps the population, now
    without an active identifier. *)
Lemma gave_back_invariant population self self1 :
  invariant population self → gave_back self self1 →
  invariant population (set_active_unit_identifier None self1).
Proof.
  intros [Hb Hp Hu] Hgb. destruct Hgb as [Ha|a c0 l0 Ha Hc0 Hl0].
  - split; simpl; [done| |done].
    unfold stored_identifiers in *. simpl. by rewrite Ha in Hp.
  - unfold stored_identifiers in Hp. rewrite Ha in Hp. simpl in Hp.
    eapply invariant_perm;
      [|apply (give_back_invariant
                 (ids_of (_occupants self) ++ ids_of (_surplus self)));
        [done|]].
    + by rewrite <-Hp, (assoc_L (++)).
    + split; simpl; [done| |done].
      unfold stored_identifiers. simpl. by rewrite app_nil_r.
Qed.

Lemma updated_invariant population self u self' :
  invariant population self → updated self u self' →
  invariant population self'.
Proof.
  intros Hinv Hupd.
  destruct Hupd as [Hsame|self1 Hid Hgb Hrel|self1 l k c Hid Hgb Hrel Hl Hrem Hs
                   |self1 lo l k c Hid Hgb Hrel Hlo Hnotin Hl Hrem].
  - by destruct Hinv.
  - by destruct (gave_back_invariant _ _ _ Hinv Hgb).
  - destruct (gave_back_invariant _ _ _ Hinv Hgb) as [Hb Hp Hu].
    simpl in *. unfold stored_identifiers in Hp. simpl in Hp.
    rewrite app_nil_r in Hp. split; simpl.
    + intros Hnb c' l'. destruct (decide (c' = c)) as [->|Hne].
      * rewrite lookup_insert_eq. intros [= <-].
        specialize (Hb Hnb _ _ Hl). apply list_remove_length in Hrem. lia.
      * rewrite lookup_insert_ne by done. by apply Hb.
    + unfold stored_identifiers. simpl. rewrite <-Hp.
      rewrite <-(ids_of_insert_remove _ _ _ _ _ Hl Hrem).
      rewrite (assoc_L (++)). symmetry. apply Permutation_cons_append.
    + done.
  - destruct (gave_back_invariant _ _ _ Hinv Hgb) as [Hb Hp Hu].
    simpl in *. unfold stored_identifiers in Hp. simpl in Hp.
    rewrite app_nil_r in Hp. split; simpl.
    + done.
    + unfold stored_identifiers. simpl. rewrite <-Hp. f_equiv.
      rewrite (ids_of_lookup _ _ _ Hl), (list_remove_Ok _ _ _ Hrem).
      case_bool_decide as Hnil.
      * subst k. simpl. symmetry. apply Permutation_cons_append.
      * rewrite ids_of_insert. simpl. symmetry. apply Permutation_cons_append.
    + intros Hnb. specialize (Hu Hnb). rewrite Hu in Hl.
      by rewrite lookup_empty in Hl.
Qed.

(** ** [initialize] *)

Lemma initialize_unit_Ok relevant_cnode self self' :
  initialize_unit relevant_cnode self = (Ok tt, self') →
  let u := value relevant_cnode in
  let c := position_to_cell (_cells self) (position u) in
  (_is_relevant_unit self u = Ok false ∧ self' = self) ∨
  (_is_relevant_unit self u = Ok true ∧
   ∃ l, _occupants self !! c = Some l ∧ self' = give_back self (identifier u) c l).
Proof.
  unfold initialize_unit, give_back. unfold_method. simpl.
  destruct (_is_relevant_unit self (value relevant_cnode)) as [[]|e]; [| |done].
  - destruct (_occupants self !! _) as [l|] eqn:Hl; simpl; [|done].
    intros Hrun. right. split; [done|]. exists l. split; [done|].
    destruct (_ || _); simpl in *.
    + rewrite Hl in Hrun. by simplify_eq.
    + by simplify_eq.
  - intros [= <-]. by left.
Qed.

(** [initialize] never touches the active identifier and the active cell,
    whether it returns or raises. *)
Lemma initialize_unit_active relevant_cnode self r self' :
  initialize_unit relevant_cnode self = (r, self') →
  _active_unit_identifier self' = _active_unit_identifier self ∧
  _active_cell self' = _active_cell self.
Proof.
  unfold initialize_unit. unfold_method. simpl.
  destruct (_is_relevant_unit self (value relevant_cnode)) as [[]|e];
    [| |by intros [= <- <-]]; [|by intros [= <- <-]].
  destruct (_occupants self !! _) as [l|] eqn:Hl; simpl; [|by intros [= <- <-]].
  destruct (_ || _); simpl.
  - rewrite Hl. by intros [= <- <-].
  - by intros [= <- <-].
Qed.

Lemma initialize_active state self r self' :
  initialize state self = (r, self') →
  _active_unit_identifier self' = _active_unit_identifier self ∧
  _active_cell self' = _active_cell self.
Proof.
  unfold initialize.
  apply (for_each_preserves
           (λ s, _active_unit_identifier s = _active_unit_identifier self ∧
                 _active_cell s = _active_cell self)); [|done].
  intros root s r1 s1 Hs. unfold bind at 1, get at 1.
  apply (for_each_preserves
           (λ s, _active_unit_identifier s = _active_unit_identifier self ∧
                 _active_cell s = _active_cell self)); [|done].
  intros n s2 r2 s3 [Hi Hc] Hrun.
  apply initialize_unit_active in Hrun as [-> ->]. done.
Qed.

Lemma set_active_unit_identifier_id self :
  set_active_unit_identifier (_active_unit_identifier self) self = self.
Proof. by destruct self. Qed.

Lemma units_on_cell_level_app cell_level state1 state2 :
  units_on_cell_level cell_level (state1 ++ state2)
  = units_on_cell_level cell_level state1 ++ units_on_cell_level cell_level state2.
Proof. unfold units_on_cell_level. by rewrite bind_app. Qed.

Lemma units_on_cell_level_singleton cell_level root_cnode :
  units_on_cell_level cell_level [root_cnode]
  = value <$> yield_nodes_on_level_below root_cnode (cell_level - 1).
Proof.
  unfold units_on_cell_level. simpl. rewrite app_nil_r.
  induction (yield_nodes_on_level_below _ _) as [|n l IH]; [done|].
  simpl. by f_equal.
Qed.

Lemma relevant_among_app self units1 units2 :
  relevant_among self (units1 ++ units2)
  = relevant_among self units1 ++ relevant_among self units2.
Proof. unfold relevant_among. by rewrite List.filter_app, fmap_app. Qed.

Lemma is_relevant_configuration self self' unit :
  same_configuration self self' → is_relevant self' unit = is_relevant self unit.
Proof. intros (_&_&_&_&Hr). unfold is_relevant. by rewrite Hr. Qed.

Lemma initialize_unit_invariant self0 population relevant_cnode self self' :
  same_configuration self0 self →
  _active_unit_identifier self = None →
  invariant population self →
  initialize_unit relevant_cnode self = (Ok tt, self') →
  same_configuration self0 self' ∧
  _active_unit_identifier self' = None ∧
  invariant (population ++ relevant_among self0 [value relevant_cnode]) self'.
Proof.
  intros Hcfg Ha Hinv Hrun.
  pose proof (initialize_unit_active _ _ _ _ Hrun) as [Ha' _].
  rewrite Ha in Ha'.
  apply initialize_unit_Ok in Hrun as [[Hrel ->]|(Hrel & l & Hl & ->)];
    unfold relevant_among; simpl;
    rewrite <-(is_relevant_configuration _ _ _ Hcfg); unfold is_relevant;
    rewrite Hrel; simpl.
  - by rewrite app_nil_r.
  - split; [|split; [done|]].
    + eapply same_configuration_trans; [done|].
      pose proof (give_back_frame self (identifier (value relevant_cnode))
                    (position_to_cell (_cells self) (position (value relevant_cnode)))
                    l) as Hf.
      simpl in Hf. destruct Hf as (?&?&?&?&?&?&?). by repeat split.
    + rewrite <-(set_active_unit_identifier_id (give_back _ _ _ _)), Ha'.
      apply give_back_invariant; [done|].
      by rewrite <-Ha, set_active_unit_identifier_id.
Qed.

Lemma initialize_invariant state self0 self :
  _active_unit_identifier self0 = None →
  invariant [] self0 →
  initialize state self0 = (Ok tt, self) →
  same_configuration self0 self ∧
  _active_unit_identifier self = None ∧
  invariant (relevant_identifiers self0 state) self.
Proof.
  intros Ha0 Hinv0. unfold initialize, relevant_identifiers.
  apply (for_each_Ok
           (λ done s, same_configuration self0 s ∧
                      _active_unit_identifier s = None ∧
                      invariant (relevant_among self0
                                   (units_on_cell_level (_cell_level self0) done)) s));
    [|by split; [apply same_configuration_refl|]].
  intros done root s s' (Hcfg & Ha & Hinv). unfold bind at 1, get at 1.
  rewrite units_on_cell_level_app, relevant_among_app.
  rewrite units_on_cell_level_singleton.
  pose proof Hcfg as (_&Hlevel&_). rewrite Hlevel.
  generalize (yield_nodes_on_level_below root (_cell_level self0 - 1)).
  intros nodes.
  apply (for_each_Ok
           (λ done' s, same_configuration self0 s ∧
                       _active_unit_identifier s = None ∧
                       invariant (relevant_among self0
                                    (units_on_cell_level (_cell_level self0) done)
                                  ++ relevant_among self0 (value <$> done')) s));
    [|by rewrite app_nil_r].
  intros done' n s1 s2 (Hcfg1 & Ha1 & Hinv1) Hrun.
  rewrite fmap_app, relevant_among_app, (assoc_L (++)). simpl.
  by eapply initialize_unit_invariant.
Qed.

(** ** [__init__] and the reachable states *)

Lemma init_Ok number_of_node_levels cells cell_level maximum_number_occupants
    charge self0 :
  __init__ number_of_node_levels cells cell_level maximum_number_occupants charge
    = Ok self0 →
  _cells self0 = cells ∧ _cell_level self0 = cell_level ∧
  _maximum_number_occupants self0 = maximum_number_occupants ∧
  _number_occupants_not_bounded self0 = (maximum_number_occupants <=? 0) ∧
  _surplus self0 = ∅ ∧
  _occupants self0 = list_to_map ((λ cell, (cell, [])) <$> yield_cells cells) ∧
  _active_unit_identifier self0 = None ∧ _active_cell self0 = None ∧
  _is_relevant_unit self0
    = match charge with Some name => charge_not_zero name | None => λ _, Ok true end.
Proof. unfold __init__. case_match; [done|]. by intros [= <-]. Qed.

Lemma init_occupants_nil (cells : list Cell) c (l : list StateId) :
  (list_to_map ((λ cell, (cell, [])) <$> cells) : gmap Cell (list StateId)) !! c
    = Some l → l = [].
Proof.
  intros Hc. apply elem_of_list_to_map_2 in Hc.
  apply list_elem_of_fmap in Hc as (c' & [= _ ->] & _). done.
Qed.

Lemma init_occupants_is_Some (cells : list Cell) c :
  c ∈ cells →
  (list_to_map ((λ cell, (cell, [])) <$> cells) : gmap Cell (list StateId)) !! c
    = Some [].
Proof.
  intros Hc.
  destruct (list_to_map _ !! c) as [l|] eqn:Hl.
  - by rewrite (init_occupants_nil _ _ _ Hl).
  - apply not_elem_of_list_to_map_2 in Hl. destruct Hl.
    rewrite <-list_fmap_compose. simpl. by rewrite list_fmap_id.
Qed.

Lemma init_invariant number_of_node_levels cells cell_level
    maximum_number_occupants charge self0 :
  __init__ number_of_node_levels cells cell_level maximum_number_occupants charge
    = Ok self0 →
  invariant [] self0.
Proof.
  intros (_&_&Hmax&Hnb&Hs&Ho&Ha&_)%init_Ok. split.
  - rewrite Hnb, Hmax, Ho. intros Hle c l ->%init_occupants_nil. simpl. lia.
  - unfold stored_identifiers. rewrite Ha, Hs, Ho, ids_of_empty. simpl.
    rewrite app_nil_r. rewrite ids_of_all_nil; [done|]. apply init_occupants_nil.
  - done.
Qed.

Lemma relevant_identifiers_configuration self self' state :
  same_configuration self self' →
  relevant_identifiers self' state = relevant_identifiers self state.
Proof.
  intros Hcfg. unfold relevant_identifiers.
  pose proof Hcfg as (_&Hlevel&_). rewrite Hlevel. f_equal.
  apply List.filter_ext. intros u. by apply is_relevant_configuration.
Qed.

(** Every reachable state has the configuration chosen at construction and
    stores exactly the relevant identifiers of the initial global state. *)
Lemma reachable_invariant number_of_node_levels cells cell_level
    maximum_number_occupants charge state self :
  reachable number_of_node_levels cells cell_level maximum_number_occupants charge
    state self →
  ∃ self0,
    __init__ number_of_node_levels cells cell_level maximum_number_occupants charge
      = Ok self0 ∧
    same_configuration self0 self ∧
    invariant (relevant_identifiers self state) self.
Proof.
  induction 1 as [self0 self Hinit Hrun|self ags self' _ IH Hrun].
  - exists self0. split; [done|].
    pose proof (init_Ok _ _ _ _ _ _ Hinit) as (_&_&_&_&_&_&Ha&_).
    destruct (initialize_invariant _ _ _ Ha (init_invariant _ _ _ _ _ _ Hinit) Hrun)
      as (Hcfg & _ & Hinv).
    split; [done|]. by rewrite (relevant_identifiers_configuration _ _ _ Hcfg).
  - destruct IH as (self0 & Hinit & Hcfg & Hinv). exists self0. split; [done|].
    apply update_Ok in Hrun as (u & _ & Hupd).
    pose proof (updated_configuration _ _ _ Hupd) as Hcfg'.
    split; [by eapply same_configuration_trans|].
    rewrite (relevant_identifiers_configuration _ _ _ Hcfg').
    by eapply updated_invariant.
Qed.

Lemma example_initialized_reachable :
  reachable 1 example_cells 1 1 None example_state example_initialized.
Proof. by apply (reachable_initialize _ _ _ _ _ _ (example_index 1)). Qed.

Lemma example_updated_reachable :
  reachable 1 example_cells 1 1 None example_state example_updated.
Proof.
  apply (reachable_update _ _ _ _ _ _ example_initialized
           [example_leaf 0 0.125%float None]);
    [apply example_initialized_reachable|].
  by vm_compute.
Qed.

(** ** [initialize] returns on a well-formed cell system *)

Lemma give_back_covers cells self a c0 l0 :
  covers cells self → covers cells (give_back self a c0 l0).
Proof.
  intros Hcov p. unfold give_back. case_match; simpl; [|done].
  rewrite lookup_insert. case_decide; [done|apply Hcov].
Qed.

Lemma initialize_unit_returns self0 relevant_cnode self :
  same_configuration self0 self →
  covers (_cells self0) self →
  (∃ b, _is_relevant_unit self0 (value relevant_cnode) = Ok b) →
  ∃ self', initialize_unit relevant_cnode self = (Ok tt, self') ∧
           same_configuration self0 self' ∧ covers (_cells self0) self'.
Proof.
  intros Hcfg Hcov [b Hb].
  assert (∃ self', initialize_unit relevant_cnode self = (Ok tt, self'))
    as [self' Hrun].
  { unfold initialize_unit. unfold_method. simpl.
    destruct Hcfg as (Hc&_&_&_&Hr). rewrite Hr, Hb, Hc.
    destruct b; [|by eexists].
    destruct (Hcov (position (value relevant_cnode))) as [l Hl].
    rewrite Hl. simpl. destruct (_ || _); simpl; [|by eexists].
    rewrite Hl. by eexists. }
  exists self'. split; [done|].
  pose proof Hcfg as (Hc&_).
  apply initialize_unit_Ok in Hrun as [[_ ->]|(_ & l & Hl & ->)]; [done|].
  split; [|by apply give_back_covers].
  eapply same_configuration_trans; [done|].
  pose proof (give_back_frame self (identifier (value relevant_cnode))
                (position_to_cell (_cells self) (position (value relevant_cnode)))
                l) as Hf.
  simpl in Hf. destruct Hf as (?&?&?&?&?&?&?). by repeat split.
Qed.

Lemma initialize_returns state self0 :
  covers (_cells self0) self0 →
  (∀ u, u ∈ units_on_cell_level (_cell_level self0) state →
        ∃ b, _is_relevant_unit self0 u = Ok b) →
  ∃ self, initialize state self0 = (Ok tt, self).
Proof.
  intros Hcov Hrel. unfold initialize.
  destruct (for_each_returns
              (λ s, same_configuration self0 s ∧ covers (_cells self0) s)
              (λ root_cnode,
                 self <- get ;;
                 for_each (yield_nodes_on_level_below root_cnode
                             (_cell_level self - 1)) initialize_unit)
              state self0) as (self & Hrun & _); [| |by exists self].
  - intros root s Hroot [Hcfg Hcov']. unfold bind at 1, get at 1.
    pose proof Hcfg as (_&->&_).
    apply (for_each_returns
             (λ s, same_configuration self0 s ∧ covers (_cells self0) s));
      [|done].
    intros n s1 Hn [Hcfg1 Hcov1]. apply initialize_unit_returns; [done..|].
    apply Hrel. unfold units_on_cell_level.
    apply list_elem_of_bind. exists root. split; [|done].
    apply list_elem_of_bind. exists n. split; [left|done].
  - split; [apply same_configuration_refl|done].
Qed.

Lemma init_covers number_of_node_levels cells cell_level maximum_number_occupants
    charge self0 :
  (∀ p, position_to_cell cells p ∈ yield_cells cells) →
  __init__ number_of_node_levels cells cell_level maximum_number_occupants charge
    = Ok self0 →
  covers cells self0.
Proof.
  intros Hcells (_&_&_&_&_&Ho&_)%init_Ok p. rewrite Ho.
  by rewrite init_occupants_is_Some.
Qed.

(** ** [update] returns on a well-formed index *)

Lemma give_back_well_formed self a c0 l0 :
  well_formed self → well_formed (give_back self a c0 l0).
Proof.
  intros (Hcov & Hne & Hact).
  pose proof (give_back_frame self a c0 l0) as Hf. simpl in Hf.
  destruct Hf as (Hc&_&_&_&_&Ha&Hac).
  split; [|split].
  - rewrite Hc. by apply give_back_covers.
  - unfold give_back. destruct (_ || _); simpl; [apply Hne|].
    intros c l. rewrite lookup_insert. case_decide; [|apply Hne].
    intros [= <-]. by destruct (default [] _).
  - by rewrite Ha, Hac, Hc.
Qed.

Lemma give_back_occupants self a c0 l0 c l :
  _occupants self !! c0 = Some l0 →
  _occupants self !! c = Some l →
  ∃ l', _occupants (give_back self a c0 l0) !! c = Some l' ∧
        (∀ x, x ∈ l → x ∈ l') ∧ (∀ x, x ∈ l' → x ∈ l ∨ x = a).
Proof.
  intros Hl0 Hl. unfold give_back. case_match; simpl.
  - rewrite lookup_insert. case_decide as Hc.
    + subst c0. rewrite Hl0 in Hl. injection Hl as ->.
      exists (l ++ [a]). split; [done|]. split; intros x; rewrite elem_of_app.
      * by left.
      * intros [?|?%list_elem_of_singleton]; eauto.
    + exists l. eauto.
  - exists l. eauto.
Qed.

Lemma give_back_surplus self a c0 l0 c l :
  _surplus self !! c = Some l →
  ∃ l', _surplus (give_back self a c0 l0) !! c = Some l' ∧ (∀ x, x ∈ l → x ∈ l').
Proof.
  intros Hl. unfold give_back. case_match; simpl.
  - exists l. eauto.
  - rewrite lookup_insert. case_decide as Hc.
    + subst c0. rewrite Hl. simpl. exists (l ++ [a]). split; [done|].
      intros x. rewrite elem_of_app. by left.
    + exists l. eauto.
Qed.

(** After giving back, a relevant unit stored at its cell is taken out of the
    dictionaries without an exception. *)
Lemma activate_returns self1 u :
  well_formed self1 →
  stored_at_its_cell self1 u →
  let c := position_to_cell (_cells self1) (position u) in
  ∃ self',
    (try_except
       (occupants_remove c (identifier u) ;;
        nonempty <- surplus_get_or_True c ;;
        if negb nonempty
        then x <- surplus_pop c ;; occupants_append (Some c) x
        else ret tt)
       ValueError
       (surplus_remove c (identifier u)) ;;
     nonempty <- surplus_get_or_True c ;;
     if negb nonempty then surplus_delitem c else ret tt)
      (set_active_unit_identifier (Some (identifier u))
         (set_active_cell (Some c) self1))
    = (Ok tt, self') ∧ well_formed self'.
Proof.
  intros (Hcov & Hne & Hact) (l & Hl & Hin) c. fold c in Hl.
  destruct (Hcov (position u)) as [lo Hlo]. fold c in Hlo.
  unfold_method. simpl. rewrite Hlo. simpl.
  destruct (list_remove (identifier u) lo) as [k|e] eqn:Hrem; simpl.
  - destruct (_surplus self1 !! c) as [ls|] eqn:Hls; simpl.
    + rewrite bool_decide_eq_false_2 by by eapply Hne. simpl. rewrite Hls. simpl.
      rewrite bool_decide_eq_false_2 by by eapply Hne. simpl.
      eexists. split; [done|]. split; [|split]; simpl; [|done|by exists (position u)].
      intros p. simpl. rewrite lookup_insert. case_decide; [done|apply Hcov].
    + rewrite Hls. simpl.
      eexists. split; [done|]. split; [|split]; simpl; [|done|by exists (position u)].
      intros p. simpl. rewrite lookup_insert. case_decide; [done|apply Hcov].
  - destruct (list_remove_Raise _ _ _ Hrem) as [-> Hnotin].
    destruct Hl as [Hl|Hl]; [by rewrite Hlo in Hl; injection Hl as ->|].
    rewrite Hl. simpl.
    destruct (list_remove_elem_of _ _ Hin) as [k ->]. simpl.
    rewrite lookup_insert_eq. simpl. case_bool_decide as Hk; simpl.
    + rewrite lookup_insert_eq. eexists. split; [done|].
      split; [|split]; simpl; [done| |by exists (position u)].
      intros c' l'. rewrite delete_insert_eq, lookup_delete.
      case_decide; [done|apply Hne].
    + eexists. split; [done|].
      split; [|split]; simpl; [done| |by exists (position u)].
      intros c' l'. rewrite lookup_insert. case_decide; [|apply Hne].
      by intros [= <-].
Qed.

(** [update] returns, and keeps the index well formed, when the one unit on
    the cell level of the active state is the active unit already tracked,
    or is filtered out, or is relevant and stored at its cell. *)
Lemma update_returns self active u :
  well_formed self →
  units_on_cell_level (_cell_level self) active = [u] →
  Some (identifier u) = _active_unit_identifier self ∨
  _is_relevant_unit self u = Ok false ∨
  (_is_relevant_unit self u = Ok true ∧ stored_at_its_cell self u) →
  ∃ self', update active self = (Ok tt, self') ∧ well_formed self'.
Proof.
  intros Hwf Hu Hcases. unfold update. unfold bind at 1, get at 1. rewrite Hu.
  unfold bind at 1. simpl.
  case_bool_decide as Hid; last first.
  { unfold modify. eexists. split; [done|].
    destruct Hwf as (Hcov & Hne & Hact). split; [done|]. split; [done|]. simpl.
    destruct (_active_unit_identifier self); [by exists (position u)|done]. }
  destruct Hcases as [?|Hcases]; [done|].
  (* giving back the previous active identifier *)
  assert (∃ self1,
            (match _active_unit_identifier self with
             | Some active_unit_identifier =>
                 occ <- occupants_getitem (_active_cell self) ;;
                 if (Z.of_nat (length occ) <? _maximum_number_occupants self)
                    || _number_occupants_not_bounded self
                 then occupants_append (_active_cell self) active_unit_identifier
                 else
                   match _active_cell self with
                   | Some c => surplus_setdefault_append c active_unit_identifier
                   | None => raise KeyError
                   end
             | None => ret tt
             end) self = (Ok tt, self1) ∧
            well_formed self1 ∧ _cells self1 = _cells self ∧
            (stored_at_its_cell self u → stored_at_its_cell self1 u))
    as (self1 & Hback & Hwf1 & Hc1 & Hstored).
  { destruct (_active_unit_identifier self) as [a|] eqn:Ha; [|by exists self].
    pose proof Hwf as (Hcov & Hne & Hact). rewrite Ha in Hact.
    destruct Hact as [p Hp]. destruct (Hcov p) as [l0 Hl0].
    exists (give_back self a (position_to_cell (_cells self) p) l0).
    split; [|split; [by apply give_back_well_formed|split]].
    - unfold give_back. unfold_method. rewrite Hp, Hl0. simpl.
      destruct (_ || _); simpl; [|done]. by rewrite Hl0.
    - apply give_back_frame.
    - intros (l & [Hl|Hl] & Hin); unfold stored_at_its_cell.
      + destruct (give_back_occupants self a _ l0 _ l Hl0 Hl) as (l' & Hl' & Hsub & _).
        exists l'. pose proof (give_back_frame self a (position_to_cell (_cells self) p) l0) as Hf.
        simpl in Hf. destruct Hf as (->&_). eauto.
      + destruct (give_back_surplus self a (position_to_cell (_cells self) p) l0 _ l Hl)
          as (l' & Hl' & Hsub).
        exists l'. pose proof (give_back_frame self a (position_to_cell (_cells self) p) l0) as Hf.
        simpl in Hf. destruct Hf as (->&_). eauto. }
  unfold bind at 1. rewrite Hback. unfold bind at 1, lift at 1.
  destruct Hcases as [Hrel|[Hrel Hst]]; rewrite Hrel.
  - unfold_method. eexists. split; [done|].
    destruct Hwf1 as (Hcov & Hne & Hact). by repeat split.
  - unfold bind at 1, modify at 1. unfold bind at 1, modify at 1.
    rewrite <-Hc1.
    destruct (activate_returns self1 u Hwf1 (Hstored Hst)) as (self' & Hrun & Hwf').
    exists self'. split; [|done]. exact Hrun.
Qed.

Lemma gave_back_well_formed self self1 :
  well_formed self → gave_back self self1 → well_formed self1.
Proof. intros Hwf [|]; [done|]. by apply give_back_well_formed. Qed.

Lemma updated_well_formed self u self' :
  well_formed self → updated self u self' → well_formed self'.
Proof.
  intros Hwf Hupd.
  destruct Hupd as [Hsame|self1 Hid Hgb Hrel|self1 l k c Hid Hgb Hrel Hl Hrem Hs
                   |self1 lo l k c Hid Hgb Hrel Hlo Hnotin Hl Hrem].
  - destruct Hwf as (Hcov & Hne & Hact). split; [done|]. split; [done|]. simpl.
    destruct (_active_unit_identifier self); [by exists (position u)|done].
  - destruct (gave_back_well_formed _ _ Hwf Hgb) as (Hcov & Hne & _).
    by repeat split.
  - pose proof (gave_back_configuration _ _ Hgb) as (Hc&_).
    destruct (gave_back_well_formed _ _ Hwf Hgb) as (Hcov & Hne & _).
    split; [|split]; simpl; [|done|].
    + intros p. simpl. rewrite lookup_insert. case_decide; [done|apply Hcov].
    + exists (position u). by rewrite Hc.
  - pose proof (gave_back_configuration _ _ Hgb) as (Hc&_).
    destruct (gave_back_well_formed _ _ Hwf Hgb) as (Hcov & Hne & _).
    split; [|split]; simpl; [done| |].
    + intros c' l'. case_bool_decide as Hk.
      * rewrite lookup_delete. case_decide; [done|apply Hne].
      * rewrite lookup_insert. case_decide; [|apply Hne]. by intros [= <-].
    + exists (position u). by rewrite Hc.
Qed.

Lemma init_well_formed number_of_node_levels cells cell_level
    maximum_number_occupants charge self0 :
  (∀ p, position_to_cell cells p ∈ yield_cells cells) →
  __init__ number_of_node_levels cells cell_level maximum_number_occupants charge
    = Ok self0 →
  well_formed self0.
Proof.
  intros Hcells Hinit.
  pose proof (init_Ok _ _ _ _ _ _ Hinit) as (Hc&_&_&_&Hs&_&Ha&_).
  split; [|split].
  - rewrite Hc. by eapply init_covers.
  - intros c l. by rewrite Hs, lookup_empty.
  - by rewrite Ha.
Qed.

Lemma initialize_well_formed state self0 self :
  well_formed self0 → initialize state self0 = (Ok tt, self) → well_formed self.
Proof.
  intros Hwf. unfold initialize.
  apply (for_each_Ok (λ _ s, well_formed s)); [|done].
  intros _ root s s' Hs. unfold bind at 1, get at 1.
  apply (for_each_Ok (λ _ s, well_formed s)); [|done].
  intros _ n s1 s2 Hs1 [[_ ->]|(_ & l & _ & ->)]%initialize_unit_Ok; [done|].
  by apply give_back_well_formed.
Qed.

(** On a cell system that maps every position to one of its cells, every
    reachable state is well formed. *)
Lemma reachable_well_formed number_of_node_levels cells cell_level
    maximum_number_occupants charge state self :
  (∀ p, position_to_cell cells p ∈ yield_cells cells) →
  reachable number_of_node_levels cells cell_level maximum_number_occupants charge
    state self →
  well_formed self.
Proof.
  intros Hcells. induction 1 as [self0 self Hinit Hrun|self ags self' _ IH Hrun].
  - eapply initialize_well_formed; [|done]. by eapply init_well_formed.
  - apply update_Ok in Hrun as (u & _ & Hupd). by eapply updated_well_formed.
Qed.

(** X8 ([update] returns for the units the index knows).  Hence [update]
    does return in every reachable state for a unit that is the active unit
    already tracked, or is filtered out, or is relevant and stored at its
    cell; the state it leaves is reachable again. *)
Lemma reachable_update_returns number_of_node_levels cells cell_level
    maximum_number_occupants charge state self active u :
  (∀ p, position_to_cell cells p ∈ yield_cells cells) →
  reachable number_of_node_levels cells cell_level maximum_number_occupants charge
    state self →
  units_on_cell_level (_cell_level self) active = [u] →
  Some (identifier u) = _active_unit_identifier self ∨
  _is_relevant_unit self u = Ok false ∨
  (_is_relevant_unit self u = Ok true ∧ stored_at_its_cell self u) →
  ∃ self',
    update active self = (Ok tt, self') ∧
    reachable number_of_node_levels cells cell_level maximum_number_occupants
      charge state self'.
Proof.
  intros Hcells Hreach Hu Hcases.
  destruct (update_returns self active u) as (self' & Hrun & _); [|done..|].
  { by eapply reachable_well_formed. }
  exists self'. split; [done|]. by econstructor.
Qed.


(** * Stated properties of the cell-occupancy index *)

(** C1, evaluated on the scenario of the claim: capacity 1, the three units
    of [example_state] in cell 0, so that after [initialize] cell 0 has one
    occupant and two surplus identifiers.  Making the occupant active
    removes it from the occupants of the cell, but no surplus identifier is
    promoted: the occupants list of the cell is left empty and the surplus
    list is as before.  The test before the promotion,
    [not self._surplus.get(cell, True)], holds for an empty surplus list
    only. *)
Theorem update_leaves_surplus_unpromoted :
  _occupants example_initialized !! 0%nat = Some [[0%nat]] ∧
  _surplus example_initialized !! 0%nat = Some [[1%nat]; [2%nat]] ∧
  update [example_leaf 0 0.125%float None] example_initialized
    = (Ok tt, example_updated) ∧
  _active_unit_identifier example_updated = Some [0%nat] ∧
  _occupants example_updated !! 0%nat = Some [] ∧
  _surplus example_updated !! 0%nat = Some [[1%nat]; [2%nat]].
Proof. repeat split; vm_compute; reflexivity. Qed.

(** C2 (capacity invariant).  After [initialize] on any extracted global
    state and any sequence of returning [update] calls: with a positive
    [maximum_number_occupants] every occupants list has at most that many
    entries; the occupants lists, the surplus lists and the active
    identifier together hold, as a multiset, exactly the identifiers of the
    relevant units on the cell level of the initial state; and with a
    [maximum_number_occupants] of zero or less the surplus dictionary stays
    empty, so [yield_surplus] generates nothing and every stored identifier
    sits in an occupants list or is the active one. *)
Theorem capacity_and_population_invariant number_of_node_levels cells cell_level
    maximum_number_occupants charge state self :
  reachable number_of_node_levels cells cell_level maximum_number_occupants charge
    state self →
  (0 < maximum_number_occupants →
   ∀ c l, _occupants self !! c = Some l →
          Z.of_nat (length l) ≤ maximum_number_occupants) ∧
  stored_identifiers self ≡ₚ relevant_identifiers self state ∧
  (maximum_number_occupants ≤ 0 →
   _surplus self = ∅ ∧ yield_surplus self = [] ∧
   ids_of (_occupants self) ++ option_list (_active_unit_identifier self)
     ≡ₚ relevant_identifiers self state).
Proof.
  intros (self0 & Hinit & Hcfg & [Hb Hp Hu])%reachable_invariant.
  apply init_Ok in Hinit as (_&_&Hmax&Hnb&_).
  destruct Hcfg as (_&_&Hmax'&Hnb'&_). rewrite Hmax in Hmax'. rewrite Hnb in Hnb'.
  rewrite Hmax', Hnb' in *. split; [|split; [done|]].
  - intros Hpos. apply Hb. by apply Z.leb_gt.
  - intros Hle. assert (Hs : _surplus self = ∅) by by apply Hu, Z.leb_le.
    split; [done|]. rewrite yield_surplus_ids_of. unfold stored_identifiers in Hp.
    rewrite Hs, ids_of_empty in *. done.
Qed.

Lemma capacity_and_population_invariant_witness :
  (∀ c l, _occupants example_updated !! c = Some l → Z.of_nat (length l) ≤ 1) ∧
  stored_identifiers example_updated ≡ₚ [[0%nat]; [1%nat]; [2%nat]].
Proof.
  destruct (capacity_and_population_invariant 1 example_cells 1 1 None
              example_state example_updated) as (Hb & Hp & _).
  - apply (reachable_update _ _ _ _ _ _ example_initialized
             [example_leaf 0 0.125%float None]).
    + apply (reachable_initialize _ _ _ _ _ _ (example_index 1));
        vm_compute; reflexivity.
    + vm_compute; reflexivity.
  - split; [apply Hb; lia|]. exact Hp.
Defined.

(** C3 (active exclusivity).  The identifiers of the relevant units of the
    global state being pairwise distinct (an identifier is the address of
    its unit in the tree), in every reachable state the active identifier,
    when there is one, is in no occupants list and in no surplus list;
    hence [__getitem__] returns it for no cell and [yield_surplus] does not
    generate it. *)
Theorem active_identifier_not_stored number_of_node_levels cells cell_level
    maximum_number_occupants charge state self a :
  NoDup (relevant_identifiers self state) →
  reachable number_of_node_levels cells cell_level maximum_number_occupants charge
    state self →
  _active_unit_identifier self = Some a →
  (∀ c l, _occupants self !! c = Some l → a ∉ l) ∧
  (∀ c l, _surplus self !! c = Some l → a ∉ l) ∧
  (∀ c l self', __getitem__ c self = (Ok l, self') → a ∉ l) ∧
  a ∉ yield_surplus self.
Proof.
  intros Hnd (self0 & _ & _ & [_ Hp _])%reachable_invariant Ha.
  rewrite <-Hp in Hnd. unfold stored_identifiers in Hnd. rewrite Ha in Hnd.
  simpl in Hnd. rewrite (assoc_L (++)) in Hnd.
  apply NoDup_app in Hnd as (_ & Hnd & _).
  assert (Hocc : ∀ c l, _occupants self !! c = Some l → a ∉ l).
  { intros c l Hl Hin. apply (Hnd a); [|left].
    apply elem_of_app. left. apply elem_of_ids_of. eauto. }
  assert (Hsur : a ∉ ids_of (_surplus self)).
  { intros Hin. apply (Hnd a); [|left]. apply elem_of_app. by right. }
  split; [done|]. split; [|split].
  - intros c l Hl Hin. apply Hsur, elem_of_ids_of. eauto.
  - intros c l self'. unfold __getitem__. unfold_method.
    destruct (_occupants self !! c) as [l'|] eqn:Hl; [|done].
    intros [= <- _]. by eapply Hocc.
  - by rewrite yield_surplus_ids_of.
Qed.

Lemma active_identifier_not_stored_witness :
  (∀ c l, _occupants example_updated !! c = Some l → [0%nat] ∉ l) ∧
  [0%nat] ∉ yield_surplus example_updated.
Proof.
  destruct (active_identifier_not_stored 1 example_cells 1 1 None
              example_state example_updated [0%nat]) as (Ho & _ & _ & Hy).
  - apply (bool_decide_unpack _). vm_compute. exact I.
  - apply (reachable_update _ _ _ _ _ _ example_initialized
             [example_leaf 0 0.125%float None]).
    + apply (reachable_initialize _ _ _ _ _ _ (example_index 1));
        vm_compute; reflexivity.
    + vm_compute; reflexivity.
  - vm_compute; reflexivity.
  - split; [exact Ho|exact Hy].
Defined.

(** C4, as stated, fails: the assertion of [update] counts all units on the
    cell level, not only those that pass the relevance filter.  With a
    charge filter, an active state whose single unit on the cell level has
    charge zero holds no relevant unit, yet [update] returns; and an active
    state with two units on the cell level of which exactly one is relevant
    fails the assertion. *)
Lemma update_assertion_ignores_relevance :
  let count self active :=
    length (List.filter (is_relevant self)
              (units_on_cell_level (_cell_level self) active)) in
  ¬ (∀ self active,
       count self active ≠ 1%nat → (update active self).1 = Raise AssertionError) ∧
  ¬ (∀ self active,
       count self active = 1%nat → (update active self).1 ≠ Raise AssertionError).
Proof.
  split; intros Hclaim.
  - specialize (Hclaim example_charged_index
                  [example_leaf 0 0.125%float (Some 0%float)]).
    vm_compute in Hclaim. by specialize (Hclaim ltac:(discriminate)).
  - specialize (Hclaim example_charged_index
                  [example_leaf 0 0.125%float (Some 1%float);
                   example_leaf 1 0.625%float (Some 0%float)]).
    vm_compute in Hclaim. by apply Hclaim.
Qed.

(** C4, amended.  For an index as constructed, [update] raises an
    [AssertionError], leaving the index untouched, when the extracted
    active global state holds no unit on the cell level or more than one,
    whether or not these units pass the relevance filter; with exactly one
    unit on the cell level the assertion passes and the call does not end
    in an [AssertionError]. *)
Theorem update_asserts_one_unit_on_cell_level number_of_node_levels cells
    cell_level maximum_number_occupants charge self0 self active :
  __init__ number_of_node_levels cells cell_level maximum_number_occupants charge
    = Ok self0 →
  same_configuration self0 self →
  (length (units_on_cell_level (_cell_level self) active) ≠ 1%nat →
   update active self = (Raise AssertionError, self)) ∧
  (length (units_on_cell_level (_cell_level self) active) = 1%nat →
   (update active self).1 ≠ Raise AssertionError).
Proof.
  intros (_&_&_&_&_&_&_&_&Hrel)%init_Ok (_&_&_&_&Hrel'). rewrite Hrel in Hrel'.
  split; intros Hlen.
  - unfold update. unfold_method.
    by rewrite bool_decide_eq_false_2 by done.
  - destruct (units_on_cell_level (_cell_level self) active) as [|u [|u' us]] eqn:Hu;
      [done| |done].
    assert (Hne : ∀ e, _is_relevant_unit self u = Raise e → e ≠ AssertionError).
    { rewrite Hrel'. destruct charge as [name|]; [|done].
      by intros e [->| ->]%charge_not_zero_Raise. }
    unfold update. unfold_method. rewrite Hu. simpl.
    repeat (case_match; simplify_eq; simpl in *; try done);
      try match goal with
          | H : list_pop _ = Raise _ |- _ =>
              apply list_pop_Raise in H; by subst
          | H : list_remove _ _ = Raise _ |- _ =>
              apply list_remove_Raise in H as [? _]; by subst
          end;
      intros [= ->]; by eapply Hne.
Qed.

Lemma update_asserts_one_unit_on_cell_level_witness :
  update [] example_charged_index = (Raise AssertionError, example_charged_index) ∧
  (update [example_leaf 0 0.125%float (Some 0%float)] example_charged_index).1
    ≠ Raise AssertionError.
Proof.
  destruct (update_asserts_one_unit_on_cell_level 1 example_cells 1 1
              (Some "charge"%string) example_charged_index example_charged_index [])
    as [Hnone _]; [vm_compute; reflexivity|apply same_configuration_refl|].
  destruct (update_asserts_one_unit_on_cell_level 1 example_cells 1 1
              (Some "charge"%string) example_charged_index example_charged_index
              [example_leaf 0 0.125%float (Some 0%float)])
    as [_ Hone]; [vm_compute; reflexivity|apply same_configuration_refl|].
  split; [apply Hnone; vm_compute; discriminate|apply Hone; vm_compute; reflexivity].
Defined.

(** C9 (unchanged active identifier).  When the one unit on the cell level
    of the active state carries the identifier already tracked as active,
    [update] returns and only recomputes the active cell from the position
    of the unit: occupants, surplus and the active identifier are as
    before. *)
Theorem update_same_identifier self extracted_active_global_state u :
  units_on_cell_level (_cell_level self) extracted_active_global_state = [u] →
  _active_unit_identifier self = Some (identifier u) →
  ∃ self',
    update extracted_active_global_state self = (Ok tt, self') ∧
    self' = set_active_cell
              (Some (position_to_cell (_cells self) (position u))) self ∧
    _active_cell self' = Some (position_to_cell (_cells self) (position u)) ∧
    _occupants self' = _occupants self ∧
    _surplus self' = _surplus self ∧
    _active_unit_identifier self' = _active_unit_identifier self.
Proof.
  intros Hu Ha. eexists. split; [|done].
  unfold update. unfold_method. rewrite Hu, Ha. simpl.
  by rewrite bool_decide_eq_false_2 by (by intros []).
Qed.

Lemma update_same_identifier_witness :
  ∃ self',
    update [example_leaf 0 0.625%float None] example_updated = (Ok tt, self') ∧
    _active_cell self' = Some 1%nat ∧
    _occupants self' = _occupants example_updated ∧
    _surplus self' = _surplus example_updated ∧
    _active_unit_identifier self' = Some [0%nat].
Proof.
  destruct (update_same_identifier example_updated
              [example_leaf 0 0.625%float None]
              (value (example_leaf 0 0.625%float None)))
    as (self' & Hrun & _ & Hc & Ho & Hs & Ha).
  - vm_compute; reflexivity.
  - vm_compute; reflexivity.
  - exists self'. repeat split; [exact Hrun|exact Hc|exact Ho|exact Hs|].
    rewrite Ha. vm_compute; reflexivity.
Defined.

(** C10 (nothing active after [initialize]).  For an index fresh from its
    constructor, [initialize] on any extracted global state, whatever the
    velocities of its units, leaves the active identifier and the active
    cell absent, so [yield_active_cells] generates nothing; when it returns,
    the identifier of every relevant unit on the cell level is in an
    occupants list or in a surplus list; and it does return when the cell
    system maps every position to one of its cells and the relevance filter
    is defined on the units of the state. *)
Theorem initialize_tracks_no_active_unit number_of_node_levels cells cell_level
    maximum_number_occupants charge self0 state r self :
  __init__ number_of_node_levels cells cell_level maximum_number_occupants charge
    = Ok self0 →
  initialize state self0 = (r, self) →
  _active_unit_identifier self = None ∧
  _active_cell self = None ∧
  yield_active_cells self = [] ∧
  (r = Ok tt →
   ∀ u, u ∈ units_on_cell_level cell_level state →
        _is_relevant_unit self u = Ok true →
        ∃ c l, (_occupants self !! c = Some l ∨ _surplus self !! c = Some l) ∧
               identifier u ∈ l) ∧
  ((∀ p, position_to_cell cells p ∈ yield_cells cells) →
   (∀ u, u ∈ units_on_cell_level cell_level state →
         ∃ b, _is_relevant_unit self0 u = Ok b) →
   r = Ok tt).
Proof.
  intros Hinit Hrun.
  pose proof (init_Ok _ _ _ _ _ _ Hinit) as (Hcells&Hlevel&_&_&_&_&Ha&Hc&_).
  pose proof (initialize_active _ _ _ _ Hrun) as [Ha' Hc'].
  rewrite Ha in Ha'. rewrite Hc in Hc'.
  split; [done|]. split; [done|]. split; [by unfold yield_active_cells; rewrite Hc'|].
  split.
  - intros ->.
    destruct (initialize_invariant _ _ _ Ha (init_invariant _ _ _ _ _ _ Hinit) Hrun)
      as (Hcfg & _ & [_ Hp _]).
    intros u Hu Hrel.
    assert (Hin : identifier u ∈ stored_identifiers self).
    { rewrite Hp. unfold relevant_identifiers. apply list_elem_of_fmap.
      exists u. split; [done|]. apply list_elem_of_In, List.filter_In.
      split; [apply list_elem_of_In; by rewrite Hlevel|].
      rewrite <-(is_relevant_configuration _ _ _ Hcfg). unfold is_relevant.
      by rewrite Hrel. }
    unfold stored_identifiers in Hin. rewrite Ha', app_nil_r in Hin.
    apply elem_of_app in Hin as [Hin|Hin];
      apply elem_of_ids_of in Hin as (c & l & Hl & Hin); exists c, l; eauto.
  - intros Hcells' Hrel.
    destruct (initialize_returns state self0) as [self' Hrun'].
    + rewrite Hcells. by eapply init_covers.
    + by rewrite Hlevel.
    + rewrite Hrun in Hrun'. by injection Hrun'.
Qed.

Lemma initialize_tracks_no_active_unit_witness :
  let self := state_after (initialize example_moving_state) (example_index 1) in
  _active_unit_identifier self = None ∧ _active_cell self = None ∧
  yield_active_cells self = [].
Proof.
  destruct (initialize_tracks_no_active_unit 1 example_cells 1 1 None
              (example_index 1) example_moving_state (Ok tt)
              (state_after (initialize example_moving_state) (example_index 1)))
    as (Ha & Hc & Hy & _).
  - vm_compute; reflexivity.
  - vm_compute; reflexivity.
  - simpl. split; [exact Ha|]. split; [exact Hc|exact Hy].
Defined.

(** * Stated properties of the event handlers *)

(** C5 (fictitious event).  Given [None], [send_out_state] of the cell-veto
    handler returns the branches stored in [_state], as an ordinary result,
    and leaves the handler as it is: in particular its stored state, its
    leaf units and the index of the active leaf unit, hence the active leaf
    unit it has recorded. *)
Theorem send_out_state_None_returns_state separation_vector calculate_out_state
    (self : LeafUnitCellVetoEventHandler.t) :
  let result :=
    LeafUnitCellVetoEventHandler.send_out_state separation_vector
      calculate_out_state None self in
  result = (Ok (LeafUnitCellVetoEventHandler._state self), self) ∧
  result.2 = self ∧
  LeafUnitCellVetoEventHandler._state result.2
    = LeafUnitCellVetoEventHandler._state self ∧
  LeafUnitCellVetoEventHandler._leaf_units result.2
    = LeafUnitCellVetoEventHandler._leaf_units self ∧
  LeafUnitCellVetoEventHandler._active_leaf_unit_index result.2
    = LeafUnitCellVetoEventHandler._active_leaf_unit_index self ∧
  LeafUnitCellVetoEventHandler.active_leaf_unit result.2
    = LeafUnitCellVetoEventHandler.active_leaf_unit self.
Proof. by repeat split. Qed.

(** C6 (end of run).  Constructing the end-of-run handler with an
    [end_of_run_time] that is not greater than 0.0, such as -1.0, raises a
    [ConfigurationError].  Constructed with 1.0, [send_event_time] returns
    1.0 and leaves the handler as it is, so every further call returns 1.0
    as well; the method takes no active unit, so no time stamp or velocity
    enters the result. *)
Theorem end_of_run_time_checked_and_returned :
  (∀ end_of_run_time output_handler,
     PrimFloat.ltb 0%float end_of_run_time = false →
     FinalTimeEndOfRunEventHandler.__init__ end_of_run_time output_handler
       = Raise ConfigurationError) ∧
  (∀ output_handler,
     FinalTimeEndOfRunEventHandler.__init__ (-1)%float output_handler
       = Raise ConfigurationError) ∧
  (∀ output_handler, ∃ self,
     FinalTimeEndOfRunEventHandler.__init__ 1%float output_handler = Ok self ∧
     FinalTimeEndOfRunEventHandler.send_event_time self = (Ok 1%float, self) ∧
     ∀ n, let self' :=
            Nat.iter n (λ s, (FinalTimeEndOfRunEventHandler.send_event_time s).2)
              self in
          FinalTimeEndOfRunEventHandler.send_event_time self'
            = (Ok 1%float, self')).
Proof.
  split; [|split].
  - intros end_of_run_time output_handler Hle.
    unfold FinalTimeEndOfRunEventHandler.__init__. by rewrite Hle.
  - done.
  - intros output_handler. eexists. split; [reflexivity|]. split; [done|].
    intros n. induction n as [|n IH]; [done|]. simpl in *. by rewrite IH.
Qed.

Lemma end_of_run_time_checked_and_returned_witness :
  FinalTimeEndOfRunEventHandler.__init__ 0%float None = Raise ConfigurationError ∧
  FinalTimeEndOfRunEventHandler.__init__ nan None = Raise ConfigurationError.
Proof.
  destruct end_of_run_time_checked_and_returned as (Hle & _ & _).
  split; apply Hle; vm_compute; reflexivity.
Defined.

(** C7 (configuration errors).  Constructing the index with a charge when
    the cell level is below the number of node levels raises a
    [ConfigurationError]; constructing the cell-veto handler with a charge
    when its potential does not expect exactly two charges raises a
    [ConfigurationError]; with charge [None] both constructors return. *)
Theorem charge_configuration_errors :
  (∀ number_of_node_levels cells cell_level maximum_number_occupants name,
     cell_level < number_of_node_levels →
     __init__ number_of_node_levels cells cell_level maximum_number_occupants
       (Some name) = Raise ConfigurationError) ∧
  (∀ estimator name,
     number_charge_arguments (potential estimator) ≠ 2 →
     LeafUnitCellVetoEventHandler.__init__ estimator (Some name)
       = Raise ConfigurationError) ∧
  (∀ number_of_node_levels cells cell_level maximum_number_occupants,
     ∃ self, __init__ number_of_node_levels cells cell_level
               maximum_number_occupants None = Ok self) ∧
  (∀ estimator,
     ∃ self, LeafUnitCellVetoEventHandler.__init__ estimator None = Ok self).
Proof.
  split; [|split; [|split]].
  - intros nl cells level maximum name Hlt. unfold __init__.
    apply Z.ltb_lt in Hlt. by rewrite Hlt.
  - intros estimator name Hne. unfold LeafUnitCellVetoEventHandler.__init__.
    simpl. apply Z.eqb_neq in Hne. by rewrite Hne.
  - intros nl cells level maximum. unfold __init__.
    rewrite andb_false_r. by eexists.
  - intros estimator. by eexists.
Qed.

Lemma charge_configuration_errors_witness :
  __init__ 2 example_cells 1 1 (Some "charge"%string) = Raise ConfigurationError ∧
  LeafUnitCellVetoEventHandler.__init__ (mkEstimator (mkPotential 3))
    (Some "charge"%string) = Raise ConfigurationError.
Proof.
  destruct charge_configuration_errors as (Hindex & Hhandler & _).
  split; [apply Hindex; lia|apply Hhandler; simpl; lia].
Defined.

(** C8 (time-stamp contract).  Once [send_event_time] has sent a candidate
    time [p], a further [send_event_time] for an active unit whose time
    stamp is smaller than [p] or greater than the next candidate time, [p]
    plus the chain time, raises an [AssertionError] (and leaves the handler
    as it is); a time stamp between the two, both included, is accepted and
    the next candidate time is sent. *)
Theorem time_stamp_outside_candidate_interval_fails
    (self0 self : EndOfChainEventHandler.t) (time_stamp0 p time_stamp : Q) :
  EndOfChainEventHandler.send_event_time time_stamp0 self0 = (Ok p, self) →
  let next := (p + EndOfChainEventHandler._chain_time self)%Q in
  ((time_stamp < p ∨ next < time_stamp)%Q →
   EndOfChainEventHandler.send_event_time time_stamp self
     = (Raise AssertionError, self)) ∧
  ((p <= time_stamp ∧ time_stamp <= next)%Q →
   ∃ self', EndOfChainEventHandler.send_event_time time_stamp self
            = (Ok next, self')).
Proof.
  unfold EndOfChainEventHandler.send_event_time at 1. unfold_method.
  destruct (_ && _); [|done]. intros [= <- <-]. simpl. split.
  - intros Hout. unfold EndOfChainEventHandler.send_event_time. unfold_method.
    simpl.
    destruct (Qle_bool _ time_stamp) eqn:Hlo; simpl;
      [destruct (Qle_bool time_stamp _) eqn:Hhi; simpl|]; [|done..].
    apply Qle_bool_iff in Hlo, Hhi. destruct Hout as [Hout|Hout].
    + by destruct (Qlt_not_le _ _ Hout).
    + by destruct (Qlt_not_le _ _ Hout).
  - intros [Hlo Hhi]. unfold EndOfChainEventHandler.send_event_time.
    unfold_method. simpl.
    apply Qle_bool_iff in Hlo, Hhi. rewrite Hlo, Hhi. simpl. by eexists.
Qed.

Lemma time_stamp_outside_candidate_interval_fails_witness :
  EndOfChainEventHandler.__init__ (7 # 10)
    = Ok (EndOfChainEventHandler.mk (7 # 10) 0) ∧
  EndOfChainEventHandler.send_event_time ((7 # 10) - (1 # 10000000000000))
    example_end_of_chain = (Raise AssertionError, example_end_of_chain) ∧
  EndOfChainEventHandler.send_event_time ((14 # 10) + (1 # 10000000000000))
    example_end_of_chain = (Raise AssertionError, example_end_of_chain) ∧
  (∃ self', EndOfChainEventHandler.send_event_time (7 # 10) example_end_of_chain
            = (Ok (0 + (7 # 10) + (7 # 10))%Q, self')) ∧
  (∃ self', EndOfChainEventHandler.send_event_time (14 # 10) example_end_of_chain
            = (Ok (0 + (7 # 10) + (7 # 10))%Q, self')).
Proof.
  pose proof (λ t, time_stamp_outside_candidate_interval_fails
                     (EndOfChainEventHandler.mk (7 # 10) 0) example_end_of_chain
                     0 (0 + (7 # 10))%Q t eq_refl) as H.
  simpl in H. split; [reflexivity|].
  split; [apply H; left; reflexivity|].
  split; [apply H; right; reflexivity|].
  split; apply H; split; discriminate.
Defined.

(** * Further properties of the cell-occupancy index *)

(** ** The cells that have an occupants list *)

Lemma give_back_dom self a c0 l0 :
  _occupants self !! c0 = Some l0 →
  dom (_occupants (give_back self a c0 l0)) = dom (_occupants self).
Proof.
  intros Hl0. unfold give_back. destruct (_ || _); simpl; [|done].
  by apply dom_insert_lookup_L.
Qed.

Lemma gave_back_dom self self1 :
  gave_back self self1 → dom (_occupants self1) = dom (_occupants self).
Proof. intros [|]; [done|]. by apply give_back_dom. Qed.

Lemma updated_dom self u self' :
  updated self u self' → dom (_occupants self') = dom (_occupants self).
Proof.
  destruct 1 as [?|self1 ? Hgb ?|self1 l k c ? Hgb ? Hl|self1 lo l k c ? Hgb];
    simpl; try (by apply gave_back_dom); [done|].
  rewrite dom_insert_lookup_L by done. by apply gave_back_dom.
Qed.

Lemma initialize_dom state self0 self :
  initialize state self0 = (Ok tt, self) →
  dom (_occupants self) = dom (_occupants self0).
Proof.
  unfold initialize.
  apply (for_each_Ok (λ _ s, dom (_occupants s) = dom (_occupants self0)));
    [|done].
  intros _ root s s' Hs. unfold bind at 1, get at 1.
  apply (for_each_Ok (λ _ s, dom (_occupants s) = dom (_occupants self0)));
    [|done].
  intros _ n s1 s2 Hs1 [[_ ->]|(_ & l & Hl & ->)]%initialize_unit_Ok; [done|].
  by rewrite give_back_dom.
Qed.

Lemma reachable_dom number_of_node_levels cells cell_level
    maximum_number_occupants charge state self :
  reachable number_of_node_levels cells cell_level maximum_number_occupants charge
    state self →
  dom (_occupants self) = list_to_set (yield_cells cells).
Proof.
  induction 1 as [self0 self Hinit Hrun|self ags self' _ IH Hrun].
  - rewrite (initialize_dom _ _ _ Hrun).
    apply init_Ok in Hinit as (_&_&_&_&_&->&_).
    rewrite dom_list_to_map_L, <-list_fmap_compose. f_equal.
    apply list_fmap_id.
  - apply update_Ok in Hrun as (u & _ & Hupd).
    by rewrite (updated_dom _ _ _ Hupd).
Qed.

(** X1 (lookup is defined on the cells of the cell system).  In every
    reachable state [__getitem__] returns a list for each cell that
    [yield_cells] generates and raises a [KeyError] for any other cell; it
    never changes the index. *)
Theorem getitem_defined_on_yielded_cells number_of_node_levels cells cell_level
    maximum_number_occupants charge state self c :
  reachable number_of_node_levels cells cell_level maximum_number_occupants charge
    state self →
  (c ∈ yield_cells cells → ∃ l, __getitem__ c self = (Ok l, self)) ∧
  (c ∉ yield_cells cells → __getitem__ c self = (Raise KeyError, self)).
Proof.
  intros Hdom%reachable_dom. unfold __getitem__. unfold_method.
  split; intros Hc.
  - assert (c ∈ dom (_occupants self)) as [l Hl]%elem_of_dom
      by (rewrite Hdom; by apply elem_of_list_to_set).
    rewrite Hl. by exists l.
  - assert (c ∉ dom (_occupants self)) as Hl%not_elem_of_dom
      by (rewrite Hdom; by rewrite elem_of_list_to_set).
    by rewrite Hl.
Qed.

Lemma getitem_defined_on_yielded_cells_witness :
  (∃ l, __getitem__ 1%nat example_updated = (Ok l, example_updated)) ∧
  __getitem__ 2%nat example_updated = (Raise KeyError, example_updated).
Proof.
  pose proof (λ c, getitem_defined_on_yielded_cells 1 example_cells 1 1 None
                     example_state example_updated c
                     example_updated_reachable) as H.
  split; apply H; apply (bool_decide_unpack _); by vm_compute.
Defined.

(** ** Surplus lists *)

Lemma give_back_surplus_nonempty self a c0 l0 :
  (∀ c l, _surplus self !! c = Some l → l ≠ []) →
  ∀ c l, _surplus (give_back self a c0 l0) !! c = Some l → l ≠ [].
Proof.
  intros Hne. unfold give_back. destruct (_ || _); simpl; [apply Hne|].
  intros c l. rewrite lookup_insert. case_decide; [|apply Hne].
  intros [= <-]. by destruct (default [] _).
Qed.

Lemma updated_surplus_nonempty self u self' :
  (∀ c l, _surplus self !! c = Some l → l ≠ []) →
  updated self u self' →
  ∀ c l, _surplus self' !! c = Some l → l ≠ [].
Proof.
  intros Hne Hupd.
  assert (Hgb : ∀ self1, gave_back self self1 →
                  ∀ c l, _surplus self1 !! c = Some l → l ≠ []).
  { intros self1 [|]; [done|]. by apply give_back_surplus_nonempty. }
  destruct Hupd as [?|self1 ? Hgb1 ?|self1 l k c ? Hgb1|self1 lo l k c ? Hgb1];
    simpl; try (by apply Hgb); [done|].
  intros c' l'. case_bool_decide as Hk.
  - rewrite lookup_delete. case_decide; [done|by apply Hgb].
  - rewrite lookup_insert. case_decide; [|by apply Hgb]. by intros [= <-].
Qed.

(** X2 (no empty surplus list).  In every reachable state the surplus
    dictionary has no empty list: a cell without surplus identifiers has no
    key, so that [yield_surplus] generates nothing exactly when the
    dictionary is empty. *)
Theorem surplus_lists_never_empty number_of_node_levels cells cell_level
    maximum_number_occupants charge state self :
  reachable number_of_node_levels cells cell_level maximum_number_occupants charge
    state self →
  (∀ c l, _surplus self !! c = Some l → l ≠ []) ∧
  (yield_surplus self = [] ↔ _surplus self = ∅).
Proof.
  intros Hreach.
  assert (Hne : ∀ c l, _surplus self !! c = Some l → l ≠ []).
  { induction Hreach as [self0 self Hinit Hrun|self ags self' _ IH Hrun].
    - apply init_Ok in Hinit as (_&_&_&_&Hs&_).
      revert Hrun. unfold initialize.
      apply (for_each_Ok (λ _ s, ∀ c l, _surplus s !! c = Some l → l ≠ []));
        [|by intros c l; rewrite Hs, lookup_empty].
      intros _ root s s' Hs'. unfold bind at 1, get at 1.
      apply (for_each_Ok (λ _ s, ∀ c l, _surplus s !! c = Some l → l ≠ []));
        [|done].
      intros _ n s1 s2 Hs1 [[_ ->]|(_ & l & Hl & ->)]%initialize_unit_Ok; [done|].
      by apply give_back_surplus_nonempty.
    - apply update_Ok in Hrun as (u & _ & Hupd).
      by eapply updated_surplus_nonempty. }
  split; [done|]. rewrite yield_surplus_ids_of. split.
  - intros Hnil. apply map_empty. intros c.
    destruct (_surplus self !! c) as [l|] eqn:Hl; [|done].
    destruct l as [|x l]; [by destruct (Hne _ _ Hl)|].
    assert (Hx : x ∈ ids_of (_surplus self)).
    { apply elem_of_ids_of. exists c, (x :: l). split; [done|left]. }
    rewrite Hnil in Hx. by apply not_elem_of_nil in Hx.
  - intros ->. apply ids_of_empty.
Qed.

Lemma surplus_lists_never_empty_witness :
  _surplus example_updated !! 0%nat ≠ Some [] ∧
  yield_surplus example_updated ≠ [].
Proof.
  destruct (surplus_lists_never_empty 1 example_cells 1 1 None example_state
              example_updated example_updated_reachable) as [Hne Hiff].
  split.
  - intros Hnil. by apply (Hne _ _ Hnil).
  - intros Hy. apply Hiff in Hy. by vm_compute in Hy.
Defined.

(** ** Switching the active unit *)

Lemma list_remove_other `{EqDecision A} (x y : A) (l k : list A) :
  list_remove x l = Ok k → y ∈ l → y ≠ x → y ∈ k.
Proof.
  intros Hr Hy Hne. rewrite (list_remove_Ok _ _ _ Hr) in Hy.
  by apply elem_of_cons in Hy as [?|?].
Qed.

(** X3 (the previous active identifier goes back).  When a returning
    [update] switches to a unit with another identifier, the identifier
    tracked before is afterwards stored for the cell tracked before: in the
    occupants list of that cell when the list had room (or the capacity is
    unbounded), in its surplus list otherwise. *)
Theorem previous_active_identifier_given_back self active self' u a c0 l0 :
  update active self = (Ok tt, self') →
  units_on_cell_level (_cell_level self) active = [u] →
  _active_unit_identifier self = Some a →
  _active_cell self = Some c0 →
  _occupants self !! c0 = Some l0 →
  identifier u ≠ a →
  if (Z.of_nat (length l0) <? _maximum_number_occupants self)
     || _number_occupants_not_bounded self
  then ∃ l, _occupants self' !! c0 = Some l ∧ a ∈ l
  else ∃ l, _surplus self' !! c0 = Some l ∧ a ∈ l.
Proof.
  intros (u' & Hu' & Hupd)%update_Ok Hu Ha Hc0 Hl0 Hne.
  rewrite Hu in Hu'. injection Hu' as <-.
  assert (Hgb : ∀ self1, gave_back self self1 → self1 = give_back self a c0 l0).
  { intros self1 [Ha'|a' c0' l0' Ha' Hc0' Hl0']; [congruence|].
    rewrite Ha in Ha'. rewrite Hc0 in Hc0'. injection Ha' as <-.
    injection Hc0' as <-. rewrite Hl0 in Hl0'. by injection Hl0' as <-. }
  assert (Hback :
    if (Z.of_nat (length l0) <? _maximum_number_occupants self)
       || _number_occupants_not_bounded self
    then ∃ l, _occupants (give_back self a c0 l0) !! c0 = Some l ∧ a ∈ l
    else ∃ l, _surplus (give_back self a c0 l0) !! c0 = Some l ∧ a ∈ l).
  { unfold give_back. destruct (_ || _); simpl; rewrite lookup_insert_eq;
      eexists; (split; [done|]); apply elem_of_app; right; left. }
  destruct Hupd as [Hsame|self1 Hid Hgb1 Hrel|self1 l k c Hid Hgb1 Hrel Hl Hrem Hs
                   |self1 lo l k c Hid Hgb1 Hrel Hlo Hnotin Hl Hrem].
  - congruence.
  - apply Hgb in Hgb1 as ->. exact Hback.
  - apply Hgb in Hgb1 as ->. simpl. destruct (_ || _); [|exact Hback].
    destruct Hback as (l' & Hl' & Hin). rewrite lookup_insert.
    case_decide as Hc; [|by exists l'].
    subst c0. fold c in Hl'. rewrite Hl in Hl'. injection Hl' as <-.
    exists k. split; [done|]. by eapply list_remove_other.
  - apply Hgb in Hgb1 as ->. simpl. destruct (_ || _); [exact Hback|].
    destruct Hback as (l' & Hl' & Hin).
    destruct (decide (c = c0)) as [Hc|Hc].
    + subst c0. fold c in Hl'. rewrite Hl in Hl'. injection Hl' as <-.
      assert (Hk : a ∈ k) by by eapply list_remove_other.
      rewrite bool_decide_eq_false_2 by (by intros ->; apply not_elem_of_nil in Hk).
      rewrite lookup_insert_eq. by exists k.
    + exists l'. split; [|done].
      case_bool_decide; [by rewrite lookup_delete_ne|by rewrite lookup_insert_ne].
Qed.

Lemma previous_active_identifier_given_back_witness :
  ∃ l, _occupants example_switched !! 0%nat = Some l ∧ [0%nat] ∈ l.
Proof.
  apply (previous_active_identifier_given_back example_updated
           [example_leaf 1 0.25%float None] example_switched
           (value (example_leaf 1 0.25%float None)) [0%nat] 0%nat []);
    try (vm_compute; reflexivity).
  vm_compute. discriminate.
Defined.

(** X4 (what [yield_active_cells] generates after [update]).  After a
    returning [update] for the unit [u], [yield_active_cells] generates
    exactly the cell of the position of [u] together with the identifier of
    [u] when [u] carries the identifier tracked before or passes the
    relevance filter, and it generates nothing when [u] has another
    identifier than the one tracked before and is filtered out.  With
    another identifier the filter has answered, so that one of the cases
    applies. *)
Theorem yield_active_cells_after_update self active self' u :
  update active self = (Ok tt, self') →
  units_on_cell_level (_cell_level self) active = [u] →
  let active_pair :=
    [(position_to_cell (_cells self) (position u), Some (identifier u))] in
  (Some (identifier u) = _active_unit_identifier self →
   yield_active_cells self' = active_pair) ∧
  (Some (identifier u) ≠ _active_unit_identifier self →
   _is_relevant_unit self u = Ok true →
   yield_active_cells self' = active_pair) ∧
  (Some (identifier u) ≠ _active_unit_identifier self →
   _is_relevant_unit self u = Ok false →
   yield_active_cells self' = []) ∧
  (Some (identifier u) ≠ _active_unit_identifier self →
   ∃ relevant, _is_relevant_unit self u = Ok relevant).
Proof.
  intros (u' & Hu' & Hupd)%update_Ok Hu. cbv zeta.
  rewrite Hu in Hu'. injection Hu' as <-. unfold yield_active_cells.
  destruct Hupd as [Hsame|self1 Hid Hgb Hrel|self1 l k c Hid Hgb Hrel Hl Hrem Hs
                   |self1 lo l k c Hid Hgb Hrel Hlo Hnotin Hl Hrem]; simpl.
  - rewrite <-Hsame. by repeat split; intros ?.
  - repeat split; try done; [congruence|by exists false].
  - destruct (gave_back_configuration _ _ Hgb) as (->&_).
    repeat split; try done; [congruence|by exists true].
  - destruct (gave_back_configuration _ _ Hgb) as (->&_).
    repeat split; try done; [congruence|by exists true].
Qed.

Lemma yield_active_cells_after_update_witness :
  yield_active_cells example_switched = [(0%nat, Some [1%nat])] ∧
  yield_active_cells
    (state_after (update [example_leaf 1 0.625%float (Some 0%float)])
       example_charged_updated) = [].
Proof.
  split.
  - destruct (yield_active_cells_after_update example_updated
                [example_leaf 1 0.25%float None] example_switched
                (value (example_leaf 1 0.25%float None)))
      as (_ & Hrelevant & _).
    + vm_compute; reflexivity.
    + vm_compute; reflexivity.
    + apply Hrelevant; [vm_compute; discriminate|vm_compute; reflexivity].
  - destruct (yield_active_cells_after_update example_charged_updated
                [example_leaf 1 0.625%float (Some 0%float)]
                (state_after (update [example_leaf 1 0.625%float (Some 0%float)])
                   example_charged_updated)
                (value (example_leaf 1 0.625%float (Some 0%float))))
      as (_ & _ & Hfiltered & _).
    + vm_compute; reflexivity.
    + vm_compute; reflexivity.
    + apply Hfiltered; [vm_compute; discriminate|vm_compute; reflexivity].
Defined.

Lemma example_cells_closed p :
  position_to_cell example_cells p ∈ yield_cells example_cells.
Proof.
  simpl. destruct p as [|x p]; [left|].
  destruct (PrimFloat.ltb x 0.5); [left|right; left].
Qed.

Lemma example_charged_updated_reachable :
  reachable 1 example_cells 1 1 (Some "charge"%string) example_charged_state
    example_charged_updated.
Proof.
  apply (reachable_update _ _ _ _ _ _ example_charged_initialized
           [example_leaf 0 0.125%float (Some 1%float)]); [|by vm_compute].
  by apply (reachable_initialize _ _ _ _ _ _ example_charged_index).
Qed.

(** X5 (a filtered-out unit clears the active slot).  On a cell system that
    maps every position to one of its cells, in every reachable state
    [update] for a unit that has another identifier than the one tracked and
    does not pass the relevance filter returns; afterwards no active
    identifier and no active cell are tracked, [yield_active_cells]
    generates nothing, and the occupants and surplus lists together hold
    what the index held before, the previous active identifier included. *)
Theorem update_filtered_unit_clears_active_slot number_of_node_levels cells
    cell_level maximum_number_occupants charge state self active u :
  (∀ p, position_to_cell cells p ∈ yield_cells cells) →
  reachable number_of_node_levels cells cell_level maximum_number_occupants charge
    state self →
  units_on_cell_level (_cell_level self) active = [u] →
  Some (identifier u) ≠ _active_unit_identifier self →
  _is_relevant_unit self u = Ok false →
  ∃ self',
    update active self = (Ok tt, self') ∧
    _active_unit_identifier self' = None ∧
    _active_cell self' = None ∧
    yield_active_cells self' = [] ∧
    ids_of (_occupants self') ++ ids_of (_surplus self')
      ≡ₚ stored_identifiers self.
Proof.
  intros Hcells Hreach Hu Hid Hrel.
  destruct (update_returns self active u) as (self' & Hrun & _);
    [by eapply reachable_well_formed|done|by right; left|].
  exists self'. split; [done|].
  destruct (reachable_invariant _ _ _ _ _ _ _ Hreach) as (_ & _ & _ & Hinv).
  pose proof (inv_population _ _ Hinv) as Hp.
  apply update_Ok in Hrun as (u' & Hu' & Hupd).
  rewrite Hu in Hu'. injection Hu' as <-.
  destruct Hupd as [Hsame|self1 _ Hgb _|self1 l k c _ _ Hrel'|self1 lo l k c _ _ Hrel'];
    [done| |congruence..].
  simpl. do 3 (split; [done|]).
  destruct (gave_back_invariant _ _ _ Hinv Hgb) as [_ Hp1 _].
  unfold stored_identifiers in Hp1. simpl in Hp1.
  by rewrite app_nil_r, <-Hp in Hp1.
Qed.

Lemma update_filtered_unit_clears_active_slot_witness :
  ∃ self',
    update [example_leaf 1 0.625%float (Some 0%float)] example_charged_updated
      = (Ok tt, self') ∧
    yield_active_cells self' = [] ∧
    ids_of (_occupants self') ++ ids_of (_surplus self') ≡ₚ [[0%nat]].
Proof.
  destruct (update_filtered_unit_clears_active_slot 1 example_cells 1 1
              (Some "charge"%string) example_charged_state
              example_charged_updated
              [example_leaf 1 0.625%float (Some 0%float)]
              (value (example_leaf 1 0.625%float (Some 0%float))))
    as (self' & Hrun & _ & _ & Hy & Hp).
  - apply example_cells_closed.
  - apply example_charged_updated_reachable.
  - vm_compute; reflexivity.
  - vm_compute; discriminate.
  - vm_compute; reflexivity.
  - exists self'. split; [exact Hrun|]. split; [exact Hy|]. exact Hp.
Defined.

(** ** A unit the index does not hold *)

Lemma gave_back_run self self1 :
  gave_back self self1 →
  (match _active_unit_identifier self with
   | Some active_unit_identifier =>
       occ <- occupants_getitem (_active_cell self) ;;
       if (Z.of_nat (length occ) <? _maximum_number_occupants self)
          || _number_occupants_not_bounded self
       then occupants_append (_active_cell self) active_unit_identifier
       else
         match _active_cell self with
         | Some c => surplus_setdefault_append c active_unit_identifier
         | None => raise KeyError
         end
   | None => ret tt
   end) self = (Ok tt, self1).
Proof.
  intros [->|a c0 l0 -> Hc0 Hl0]; [done|].
  unfold give_back. unfold_method. rewrite Hc0, Hl0. simpl.
  destruct (_ || _); simpl; [|done]. by rewrite Hl0.
Qed.

(** X6 (a relevant unit that is not stored).  When the unit [u] of the
    active state has another identifier than the one tracked, passes the
    relevance filter and, once the previous active identifier is given back,
    is neither in the occupants list nor in the surplus list of the cell of
    its position, [update] raises a [KeyError] (the cell has no list) or a
    [ValueError] (its surplus list lacks the identifier).  The index is then
    left changed: the previous active identifier is given back and [u] is
    recorded as the active unit although nothing was removed for it. *)
Theorem update_unstored_unit_raises self active u self1 :
  units_on_cell_level (_cell_level self) active = [u] →
  Some (identifier u) ≠ _active_unit_identifier self →
  gave_back self self1 →
  _is_relevant_unit self u = Ok true →
  ¬ stored_at_its_cell self1 u →
  ∃ e, update active self = (Raise e, activate u self1) ∧
       (e = KeyError ∨ e = ValueError).
Proof.
  intros Hu Hid Hgb Hrel Hnot.
  pose proof (gave_back_configuration _ _ Hgb) as (Hc&_).
  unfold update. unfold bind at 1, get at 1. rewrite Hu.
  unfold bind at 1. simpl. rewrite bool_decide_eq_true_2 by done.
  unfold bind at 1. rewrite (gave_back_run _ _ Hgb).
  unfold bind at 1, lift at 1. rewrite Hrel.
  unfold stored_at_its_cell in Hnot. rewrite Hc in Hnot.
  unfold activate. rewrite Hc.
  set (c := position_to_cell (_cells self) (position u)) in *.
  unfold_method. simpl.
  destruct (_occupants self1 !! c) as [lo|] eqn:Hlo; simpl;
    [|by exists KeyError; split; [|left]].
  destruct (list_remove (identifier u) lo) as [k|e] eqn:Hrem; simpl.
  { destruct Hnot. exists lo. split; [by left|].
    rewrite (list_remove_Ok _ _ _ Hrem). left. }
  destruct (list_remove_Raise _ _ _ Hrem) as [-> _].
  destruct (_surplus self1 !! c) as [ls|] eqn:Hls; simpl;
    [|by exists KeyError; split; [|left]].
  destruct (list_remove (identifier u) ls) as [k|e] eqn:Hrem'; simpl.
  { destruct Hnot. exists ls. split; [by right|].
    rewrite (list_remove_Ok _ _ _ Hrem'). left. }
  destruct (list_remove_Raise _ _ _ Hrem') as [-> _].
  exists ValueError. by split; [|right].
Qed.

Lemma update_unstored_unit_raises_witness :
  ∃ e, update [example_leaf 5 0.125%float None] example_updated
       = (Raise e,
          activate (value (example_leaf 5 0.125%float None))
            (give_back example_updated [0%nat] 0%nat [])) ∧
       (e = KeyError ∨ e = ValueError).
Proof.
  apply (update_unstored_unit_raises example_updated
           [example_leaf 5 0.125%float None]).
  - vm_compute; reflexivity.
  - vm_compute; discriminate.
  - apply gave_back_some; vm_compute; reflexivity.
  - vm_compute; reflexivity.
  - intros (l & [Hl|Hl] & Hin); vm_compute in Hl; injection Hl as <-;
      revert Hin; apply (bool_decide_unpack _); by vm_compute.
Defined.

(** ** The layout [initialize] produces *)

Lemma identifiers_at_app self units1 units2 c :
  identifiers_at self (units1 ++ units2) c
  = identifiers_at self units1 c ++ identifiers_at self units2 c.
Proof. unfold identifiers_at. by rewrite List.filter_app, fmap_app. Qed.

Lemma identifiers_at_singleton self u c :
  identifiers_at self [u] c
  = if is_relevant self u
       && bool_decide (position_to_cell (_cells self) (position u) = c)
    then [identifier u] else [].
Proof. unfold identifiers_at. simpl. by destruct (_ && _). Qed.

Lemma give_back_laid_out self0 self units u l :
  let c := position_to_cell (_cells self0) (position u) in
  same_configuration self0 self →
  _number_occupants_not_bounded self0 = (_maximum_number_occupants self0 <=? 0) →
  laid_out self0 units self →
  is_relevant self0 u = true →
  is_Some (_occupants self0 !! c) →
  _occupants self !! c = Some l →
  laid_out self0 (units ++ [u]) (give_back self (identifier u) c l).
Proof.
  intros c (Hcells&_&Hmax&Hnb&_) Hnb0 Hlay Hrel Hdom Hl c' Hc'.
  specialize (Hlay c' Hc'). simpl in Hlay. simpl.
  rewrite identifiers_at_app, identifiers_at_singleton, Hrel. simpl. fold c.
  unfold give_back. rewrite Hnb, Hmax.
  set (ids := identifiers_at self0 units c') in *.
  set (n := Z.to_nat (_maximum_number_occupants self0)) in *.
  destruct (decide (c = c')) as [Hcc|Hcc]; last first.
  { rewrite (bool_decide_eq_false_2 (c = c')) by done. rewrite app_nil_r.
    destruct (_number_occupants_not_bounded self0);
      destruct (_ <? _); simpl; rewrite ?lookup_insert_ne by done; exact Hlay. }
  rewrite (bool_decide_eq_true_2 (c = c')) by done.
  subst c'. rewrite Hl in Hlay.
  destruct (_number_occupants_not_bounded self0) eqn:Hb.
  - destruct Hlay as [[= ->] Hs]. rewrite orb_true_r. simpl.
    by rewrite lookup_insert_eq.
  - destruct Hlay as [[= ->] Hs]. rewrite orb_false_r.
    symmetry in Hnb0. apply Z.leb_gt in Hnb0.
    destruct (_ <? _) eqn:Hlt; simpl.
    + apply Z.ltb_lt in Hlt. rewrite length_take in Hlt.
      assert (Hlen : (length ids < n)%nat) by lia.
      rewrite lookup_insert_eq, Hs.
      rewrite (take_ge ids), (take_ge (ids ++ _)), (drop_ge ids),
        (drop_ge (ids ++ _)) by (rewrite ?length_app; simpl; lia).
      done.
    + apply Z.ltb_ge in Hlt. rewrite length_take in Hlt.
      assert (Hlen : (n ≤ length ids)%nat) by lia.
      rewrite lookup_insert_eq, Hs.
      rewrite take_app_le, drop_app_le by done. split; [done|].
      rewrite (bool_decide_eq_false_2 (_ ++ _ = [])) by by destruct (drop n ids).
      by case_bool_decide as Hd; [rewrite Hd|].
Qed.

Lemma initialize_unit_laid_out self0 done relevant_cnode self self' :
  same_configuration self0 self →
  dom (_occupants self) = dom (_occupants self0) →
  _number_occupants_not_bounded self0 = (_maximum_number_occupants self0 <=? 0) →
  laid_out self0 done self →
  initialize_unit relevant_cnode self = (Ok tt, self') →
  same_configuration self0 self' ∧
  dom (_occupants self') = dom (_occupants self0) ∧
  laid_out self0 (done ++ [value relevant_cnode]) self'.
Proof.
  intros Hcfg Hdom Hnb0 Hlay Hrun.
  apply initialize_unit_Ok in Hrun as [[Hrel ->]|(Hrel & l & Hl & ->)].
  - split; [done|]. split; [done|]. intros c Hc. specialize (Hlay c Hc).
    simpl in *. rewrite identifiers_at_app, identifiers_at_singleton.
    rewrite <-(is_relevant_configuration _ _ _ Hcfg). unfold is_relevant.
    rewrite Hrel. simpl. by rewrite app_nil_r.
  - split; [|split].
    + eapply same_configuration_trans; [done|].
      pose proof (give_back_frame self (identifier (value relevant_cnode))
                    (position_to_cell (_cells self) (position (value relevant_cnode)))
                    l) as Hf.
      simpl in Hf. destruct Hf as (?&?&?&?&?&?&?). by repeat split.
    + by rewrite give_back_dom.
    + pose proof Hcfg as (Hcells&_). rewrite Hcells in Hl |- *.
      apply (give_back_laid_out self0 self done (value relevant_cnode) l
               Hcfg Hnb0 Hlay); [| |done].
      * rewrite <-(is_relevant_configuration _ _ _ Hcfg). unfold is_relevant.
        by rewrite Hrel.
      * apply elem_of_dom. rewrite <-Hdom. apply elem_of_dom. by eexists.
Qed.

(** X7 (what [initialize] stores, cell by cell).  After a returning
    [initialize] on a fresh index, every cell of the cell system holds the
    identifiers of the relevant units positioned in it in the order of the
    global state: with a positive capacity the first
    [maximum_number_occupants] of them are its occupants and the others,
    if any, its surplus list (no key when there are none); with a capacity
    of zero or less all of them are its occupants and it has no surplus
    key. *)
Theorem initialize_fills_cells_in_order number_of_node_levels cells cell_level
    maximum_number_occupants charge self0 state self c :
  __init__ number_of_node_levels cells cell_level maximum_number_occupants charge
    = Ok self0 →
  initialize state self0 = (Ok tt, self) →
  c ∈ yield_cells cells →
  let ids := identifiers_in_cell self0 state c in
  let n := Z.to_nat maximum_number_occupants in
  if maximum_number_occupants <=? 0
  then _occupants self !! c = Some ids ∧ _surplus self !! c = None
  else _occupants self !! c = Some (take n ids) ∧
       _surplus self !! c
         = if bool_decide (drop n ids = []) then None else Some (drop n ids).
Proof.
  intros Hinit Hrun Hc.
  pose proof (init_Ok _ _ _ _ _ _ Hinit) as (Hcells&Hlevel&Hmax&Hnb&Hs&Ho&_).
  assert (Hnb0 : _number_occupants_not_bounded self0
                 = (_maximum_number_occupants self0 <=? 0)) by by rewrite Hmax.
  assert (same_configuration self0 self ∧
          dom (_occupants self) = dom (_occupants self0) ∧
          laid_out self0 (units_on_cell_level (_cell_level self0) state) self)
    as (_ & _ & Hlay).
  { revert Hrun. unfold initialize.
    apply (for_each_Ok
             (λ done s,
                same_configuration self0 s ∧
                dom (_occupants s) = dom (_occupants self0) ∧
                laid_out self0 (units_on_cell_level (_cell_level self0) done) s)).
    - intros done root s s' (Hcfg & Hdom & Hlay). unfold bind at 1, get at 1.
      rewrite units_on_cell_level_app, units_on_cell_level_singleton.
      pose proof Hcfg as (_&Hl&_). rewrite Hl.
      generalize (yield_nodes_on_level_below root (_cell_level self0 - 1)).
      intros nodes.
      apply (for_each_Ok
               (λ done' s,
                  same_configuration self0 s ∧
                  dom (_occupants s) = dom (_occupants self0) ∧
                  laid_out self0 (units_on_cell_level (_cell_level self0) done
                                  ++ (value <$> done')) s));
        [|by rewrite app_nil_r].
      intros done' n s1 s2 (Hcfg1 & Hdom1 & Hlay1) Hrun1.
      rewrite fmap_app, (assoc_L (++)). simpl.
      by eapply initialize_unit_laid_out.
    - split; [apply same_configuration_refl|]. split; [done|].
      intros c' [l Hl]. simpl. rewrite Ho in Hl.
      pose proof (init_occupants_nil _ _ _ Hl) as ->.
      rewrite Hs, Ho, Hl, lookup_empty. unfold identifiers_at. simpl.
      rewrite take_nil, drop_nil. by destruct (_number_occupants_not_bounded self0). }
  specialize (Hlay c). simpl in Hlay. rewrite Hnb, Hmax in Hlay.
  apply Hlay. rewrite Ho, init_occupants_is_Some; [by eexists|done].
Qed.

Lemma initialize_fills_cells_in_order_witness :
  _occupants example_initialized !! 0%nat = Some [[0%nat]] ∧
  _surplus example_initialized !! 0%nat = Some [[1%nat]; [2%nat]].
Proof.
  apply (initialize_fills_cells_in_order 1 example_cells 1 1 None
           (example_index 1) example_state example_initialized 0%nat).
  - vm_compute; reflexivity.
  - vm_compute; reflexivity.
  - left.
Defined.

Lemma reachable_update_returns_witness :
  ∃ self',
    update [example_leaf 2 0.375%float None] example_updated = (Ok tt, self') ∧
    reachable 1 example_cells 1 1 None example_state self'.
Proof.
  apply (reachable_update_returns 1 example_cells 1 1 None example_state
           example_updated [example_leaf 2 0.375%float None]
           (value (example_leaf 2 0.375%float None))).
  - apply example_cells_closed.
  - apply example_updated_reachable.
  - vm_compute; reflexivity.
  - right. right. split; [vm_compute; reflexivity|].
    exists [[1%nat]; [2%nat]]. split; [right; vm_compute; reflexivity|].
    right. left.
Defined.

(** ** [initialize] and the charge filter *)

Lemma for_each_Raise {S A} (P : S → Prop) (body : A → M S unit) l s e s' :
  (∀ x s s', P s → body x s = (Ok tt, s') → P s') →
  P s → for_each l body s = (Raise e, s') →
  ∃ x s1, x ∈ l ∧ P s1 ∧ body x s1 = (Raise e, s').
Proof.
  intros Hbody. revert s. induction l as [|x l IH]; intros s HP; simpl; [done|].
  unfold bind. destruct (body x s) as [[[]|e'] s1] eqn:Hx.
  - intros Hrun. destruct (IH s1) as (y & s2 & Hy & HP2 & Hrun2);
      [by eapply Hbody|done|].
    exists y, s2. split; [by right|done].
  - intros [= <- <-]. exists x, s. split; [left|done].
Qed.

Lemma initialize_Ok_filter_defined state self0 self :
  initialize state self0 = (Ok tt, self) →
  ∀ u, u ∈ units_on_cell_level (_cell_level self0) state →
       ∃ b, _is_relevant_unit self0 u = Ok b.
Proof.
  unfold initialize. intros Hrun.
  assert (same_configuration self0 self ∧
          ∀ u, u ∈ units_on_cell_level (_cell_level self0) state →
               ∃ b, _is_relevant_unit self0 u = Ok b) as [_ H]; [|done].
  revert Hrun.
  apply (for_each_Ok
           (λ done s,
              same_configuration self0 s ∧
              ∀ u, u ∈ units_on_cell_level (_cell_level self0) done →
                   ∃ b, _is_relevant_unit self0 u = Ok b));
    [|by split; [apply same_configuration_refl|intros u ?%elem_of_nil]].
  intros done root s s' (Hcfg & Hdone). unfold bind at 1, get at 1.
  rewrite units_on_cell_level_app, units_on_cell_level_singleton.
  pose proof Hcfg as (_&Hl&_). rewrite Hl.
  generalize (yield_nodes_on_level_below root (_cell_level self0 - 1)).
  intros nodes.
  apply (for_each_Ok
           (λ done' s,
              same_configuration self0 s ∧
              ∀ u, u ∈ units_on_cell_level (_cell_level self0) done
                         ++ (value <$> done') →
                   ∃ b, _is_relevant_unit self0 u = Ok b));
    [|by rewrite app_nil_r].
  intros done' n s1 s2 (Hcfg1 & Hdone1) Hrun1.
  assert (same_configuration self0 s2 ∧
          ∃ b, _is_relevant_unit self0 (value n) = Ok b) as [Hcfg2 Hn].
  { pose proof Hcfg1 as (_&_&_&_&Hr).
    apply initialize_unit_Ok in Hrun1 as [[Hrel ->]|(Hrel & l & Hl' & ->)];
      rewrite Hr in Hrel; (split; [|by eexists]); [done|].
    eapply same_configuration_trans; [done|].
    pose proof (give_back_frame s1 (identifier (value n))
                  (position_to_cell (_cells s1) (position (value n))) l) as Hf.
    simpl in Hf. destruct Hf as (?&?&?&?&?&?&?). by repeat split. }
  split; [done|]. intros u. rewrite fmap_app, (assoc_L (++)), elem_of_app.
  intros [Hu|Hu%list_elem_of_singleton]; [by apply Hdone1|by subst].
Qed.

(** X9 ([initialize] needs the charge on every unit of the cell level).  For
    an index constructed with a charge, [initialize] raises an exception, a
    [KeyError] or a [TypeError], whenever some unit on the cell level of the
    global state has no charges at all or has no charge of that name. *)
Theorem initialize_raises_without_charge number_of_node_levels cells cell_level
    maximum_number_occupants name self0 state u r self :
  __init__ number_of_node_levels cells cell_level maximum_number_occupants
    (Some name) = Ok self0 →
  u ∈ units_on_cell_level cell_level state →
  (charge u = None ∨ ∃ d, charge u = Some d ∧ d !! name = None) →
  initialize state self0 = (r, self) →
  r = Raise KeyError ∨ r = Raise TypeError.
Proof.
  intros Hinit Hu Hcharge Hrun.
  pose proof (init_Ok _ _ _ _ _ _ Hinit) as (_&Hlevel&_&_&_&_&_&_&Hrel).
  destruct r as [[]|e].
  - destruct (initialize_Ok_filter_defined _ _ _ Hrun u) as [b Hb];
      [by rewrite Hlevel|].
    rewrite Hrel in Hb. unfold charge_not_zero, dict_getitem in Hb.
    destruct Hcharge as [Hn|(d & Hd & Hdn)]; rewrite ?Hn, ?Hd, ?Hdn in Hb; done.
  - revert Hrun. unfold initialize. intros Hrun.
    apply (for_each_Raise (λ s, same_configuration self0 s)) in Hrun
      as (root & s1 & _ & Hcfg & Hrun); [| |apply same_configuration_refl].
    + revert Hrun. unfold bind at 1, get at 1. intros Hrun.
      apply (for_each_Raise (λ s, same_configuration self0 s)) in Hrun
        as (n & s2 & _ & (_&_&_&_&Hr) & Hrun); [| |done].
      * revert Hrun. unfold initialize_unit. unfold_method. simpl.
        rewrite Hr, Hrel.
        destruct (charge_not_zero name (value n)) as [[]|e'] eqn:Hc.
        -- destruct (_occupants s2 !! _) as [l|] eqn:Hl; simpl;
             [|intros [= <- _]; by left].
           destruct (_ || _); simpl; [by rewrite Hl|done].
        -- done.
        -- intros [= <- _]. by apply charge_not_zero_Raise in Hc as [->| ->];
             [right|left].
      * intros n s s' Hs Hn.
        eapply same_configuration_trans; [done|].
        apply initialize_unit_Ok in Hn as [[_ ->]|(_ & l & _ & ->)];
          [apply same_configuration_refl|].
        pose proof (give_back_frame s (identifier (value n))
                      (position_to_cell (_cells s) (position (value n))) l) as Hf.
        simpl in Hf. destruct Hf as (?&?&?&?&?&?&?). by repeat split.
    + intros root s s' Hs. unfold bind at 1, get at 1.
      apply (for_each_Ok (λ _ s, same_configuration self0 s)); [|done].
      intros _ n s1' s2' Hs1 Hn.
      eapply same_configuration_trans; [done|].
      apply initialize_unit_Ok in Hn as [[_ ->]|(_ & l & _ & ->)];
        [apply same_configuration_refl|].
      pose proof (give_back_frame s1' (identifier (value n))
                    (position_to_cell (_cells s1') (position (value n))) l) as Hf.
      simpl in Hf. destruct Hf as (?&?&?&?&?&?&?). by repeat split.
Qed.

Lemma initialize_raises_without_charge_witness :
  (initialize [example_leaf 0 0.125%float (Some 1%float);
               example_leaf 1 0.625%float None] example_charged_index).1
    = Raise KeyError ∨
  (initialize [example_leaf 0 0.125%float (Some 1%float);
               example_leaf 1 0.625%float None] example_charged_index).1
    = Raise TypeError.
Proof.
  apply (initialize_raises_without_charge 1 example_cells 1 1 "charge"%string
           example_charged_index
           [example_leaf 0 0.125%float (Some 1%float);
            example_leaf 1 0.625%float None]
           (value (example_leaf 1 0.625%float None)) _
           (initialize [example_leaf 0 0.125%float (Some 1%float);
                        example_leaf 1 0.625%float None]
              example_charged_index).2).
  - vm_compute; reflexivity.
  - vm_compute. right. left.
  - left. reflexivity.
  - apply surjective_pairing.
Defined.

(** * Further properties of the event handlers *)

(** X10 (as many charges as the potential expects).  For a cell-veto
    handler that was constructed, whenever the stored [_charges] function
    returns for two units, it returns as many charges as the potential
    expects (a number that is not negative); without a charge it always
    returns, and every entry is 1.0. *)
Theorem charges_match_potential estimator charge self unit_one unit_two :
  LeafUnitCellVetoEventHandler.__init__ estimator charge = Ok self →
  0 ≤ number_charge_arguments (potential estimator) →
  (∀ charges,
     LeafUnitCellVetoEventHandler._charges self unit_one unit_two = Ok charges →
     Z.of_nat (length charges) = number_charge_arguments (potential estimator)) ∧
  (charge = None →
   ∃ charges,
     LeafUnitCellVetoEventHandler._charges self unit_one unit_two = Ok charges ∧
     Forall (λ c, c = 1%float) charges).
Proof.
  unfold LeafUnitCellVetoEventHandler.__init__. simpl. intros Hinit Hn.
  destruct charge as [name|].
  - destruct (number_charge_arguments (potential estimator) =? 2) eqn:H2;
      [|done].
    apply Z.eqb_eq in H2. injection Hinit as <-. simpl. split; [|done].
    intros charges.
    destruct (LeafUnitCellVetoEventHandler.unit_charge name unit_one);
      destruct (LeafUnitCellVetoEventHandler.unit_charge name unit_two);
      intros [= <-]. simpl. lia.
  - injection Hinit as <-. simpl. split.
    + intros charges [= <-]. rewrite length_replicate. lia.
    + intros _. eexists. split; [done|]. apply Forall_replicate. done.
Qed.

Lemma charges_match_potential_witness :
  LeafUnitCellVetoEventHandler._charges example_cell_veto_handler
    (value (example_leaf 0 0.125%float (Some 1%float)))
    (value (example_leaf 1 0.625%float (Some 0%float)))
  = Ok [1%float; 0%float] ∧
  Z.of_nat (length [1%float; 0%float]) = 2.
Proof.
  split; [reflexivity|].
  apply (charges_match_potential (mkEstimator (mkPotential 2))
           (Some "charge"%string)
           (match LeafUnitCellVetoEventHandler.__init__
                    (mkEstimator (mkPotential 2)) (Some "charge"%string) with
            | Ok self => self
            | Raise _ => example_cell_veto_handler
            end)
           (value (example_leaf 0 0.125%float (Some 1%float)))
           (value (example_leaf 1 0.625%float (Some 0%float))));
    [reflexivity|simpl; lia|reflexivity].
Defined.

Lemma for_each_append_leaf leaves (self : LeafUnitCellVetoEventHandler.t) :
  for_each leaves (λ leaf_cnode,
    modify (LeafUnitCellVetoEventHandler.append_leaf leaf_cnode)) self
  = (Ok tt,
     LeafUnitCellVetoEventHandler.mk
       (LeafUnitCellVetoEventHandler._estimator self)
       (LeafUnitCellVetoEventHandler._potential self)
       (LeafUnitCellVetoEventHandler._charge self)
       (LeafUnitCellVetoEventHandler._charges self)
       (LeafUnitCellVetoEventHandler._state self)
       (LeafUnitCellVetoEventHandler._leaf_cnodes self ++ leaves)
       (LeafUnitCellVetoEventHandler._leaf_units self ++ (value <$> leaves))
       (LeafUnitCellVetoEventHandler._active_leaf_unit_index self)).
Proof.
  revert self. induction leaves as [|n leaves IH]; intros self; simpl.
  - unfold ret. rewrite !app_nil_r. by destruct self.
  - unfold bind, modify. rewrite IH. simpl.
    by rewrite <-!(assoc_L (++)).
Qed.

(** X11 (the two-leaf-unit assertion of [send_out_state]).  Given a target
    branch, [send_out_state] first appends the branch to the stored state
    and its leaf nodes and their units to the stored leaf nodes and leaf
    units; unless there are then exactly two leaf units, it raises an
    [AssertionError] and leaves the handler with the branch appended. *)
Theorem send_out_state_asserts_two_leaf_units separation_vector
    calculate_out_state (self : LeafUnitCellVetoEventHandler.t) target :
  (length (LeafUnitCellVetoEventHandler._leaf_units self)
   + length (yield_leaf_nodes target) ≠ 2)%nat →
  LeafUnitCellVetoEventHandler.send_out_state separation_vector
    calculate_out_state (Some target) self
  = (Raise AssertionError, appended_target target self).
Proof.
  intros Hlen. unfold LeafUnitCellVetoEventHandler.send_out_state.
  unfold bind at 1, modify at 1. unfold bind at 1.
  rewrite for_each_append_leaf. simpl. unfold_method. simpl.
  rewrite bool_decide_eq_false_2; [done|].
  by rewrite length_app, length_fmap.
Qed.

Lemma send_out_state_asserts_two_leaf_units_witness :
  LeafUnitCellVetoEventHandler.send_out_state (λ p q, []) (λ _ _, ret tt)
    (Some example_composite) example_cell_veto_handler
  = (Raise AssertionError,
     appended_target example_composite example_cell_veto_handler).
Proof.
  apply send_out_state_asserts_two_leaf_units. vm_compute. discriminate.
Defined.

(** X12 (what [send_out_state] hands to the bounding-potential method).
    When the stored leaf units and the leaf units of the target branch are
    two together, the active index is 0 or 1 and the charges function
    returns, [send_out_state] calls the out-state method of the base class
    on the handler with the branch appended, with the separation vector
    from the position of the active leaf unit to the position of the other
    one and with the charges of the two units in the order in which they
    are stored, whichever is active; it then returns the stored state. *)
Theorem send_out_state_two_leaf_units separation_vector calculate_out_state
    (self : LeafUnitCellVetoEventHandler.t) target unit_one unit_two charges :
  let self1 := appended_target target self in
  let index := LeafUnitCellVetoEventHandler._active_leaf_unit_index self in
  LeafUnitCellVetoEventHandler._leaf_units self1 = [unit_one; unit_two] →
  index = 0 ∨ index = 1 →
  LeafUnitCellVetoEventHandler._charges self unit_one unit_two = Ok charges →
  let active := if index =? 0 then unit_one else unit_two in
  let other := if index =? 0 then unit_two else unit_one in
  LeafUnitCellVetoEventHandler.send_out_state separation_vector
    calculate_out_state (Some target) self
  = (calculate_out_state
       (separation_vector (position active) (position other)) charges ;;
     self <- get ;; ret (LeafUnitCellVetoEventHandler._state self)) self1.
Proof.
  intros self1 index Hunits Hindex Hcharges active other.
  unfold LeafUnitCellVetoEventHandler.send_out_state.
  unfold bind at 1, modify at 1. unfold bind at 1.
  rewrite for_each_append_leaf. simpl.
  change (LeafUnitCellVetoEventHandler.mk _ _ _ _ _ _ _ _) with self1.
  unfold bind at 1, get at 1. unfold bind at 1, assert at 1.
  rewrite Hunits. simpl. unfold bind at 1, lift at 1.
  change (LeafUnitCellVetoEventHandler._active_leaf_unit_index self1)
    with (LeafUnitCellVetoEventHandler._active_leaf_unit_index self).
  change (LeafUnitCellVetoEventHandler._charges self1)
    with (LeafUnitCellVetoEventHandler._charges self).
  subst active other index.
  destruct Hindex as [Hi | Hi]; rewrite Hi; unfold list_getitem; simpl;
    unfold bind, lift; simpl; by rewrite Hcharges.
Qed.

Lemma send_out_state_two_leaf_units_witness :
  LeafUnitCellVetoEventHandler.send_out_state (λ p q, p ++ q) (λ _ _, ret tt)
    (Some (example_leaf 1 0.625%float (Some 0%float))) example_cell_veto_handler
  = (Ok [example_leaf 0 0.125%float (Some 1%float);
         example_leaf 1 0.625%float (Some 0%float)],
     appended_target (example_leaf 1 0.625%float (Some 0%float))
       example_cell_veto_handler).
Proof.
  rewrite (send_out_state_two_leaf_units (λ p q, p ++ q) (λ _ _, ret tt)
             example_cell_veto_handler
             (example_leaf 1 0.625%float (Some 0%float))
             (value (example_leaf 0 0.125%float (Some 1%float)))
             (value (example_leaf 1 0.625%float (Some 0%float)))
             [1%float; 0%float]);
    [reflexivity|reflexivity|left; reflexivity|reflexivity].
Defined.

(** X13 (the end-of-run time is kept).  When the helpers of the base class
    leave the stored event time alone, [send_event_time] of an end-of-run
    handler returns the [end_of_run_time] it was constructed with also
    after [send_out_state], whether that call returned or raised. *)
Theorem end_of_run_time_kept_by_send_out_state store_in_state
    time_slice_all_units_in_state end_of_run_time output_handler self
    cnodes_with_active_units r self' :
  (∀ cnodes s r s',
     store_in_state cnodes s = (r, s') →
     FinalTimeEndOfRunEventHandler._event_time s'
       = FinalTimeEndOfRunEventHandler._event_time s) →
  (∀ s r s',
     time_slice_all_units_in_state s = (r, s') →
     FinalTimeEndOfRunEventHandler._event_time s'
       = FinalTimeEndOfRunEventHandler._event_time s) →
  FinalTimeEndOfRunEventHandler.__init__ end_of_run_time output_handler
    = Ok self →
  FinalTimeEndOfRunEventHandler.send_out_state store_in_state
    time_slice_all_units_in_state cnodes_with_active_units self = (r, self') →
  FinalTimeEndOfRunEventHandler.send_event_time self'
    = (Ok end_of_run_time, self').
Proof.
  intros Hstore Hslice Hinit Hrun.
  assert (Ht : FinalTimeEndOfRunEventHandler._event_time self = end_of_run_time).
  { revert Hinit. unfold FinalTimeEndOfRunEventHandler.__init__.
    destruct (negb _); [done|]. by intros [= <-]. }
  assert (Ht' : FinalTimeEndOfRunEventHandler._event_time self'
                = FinalTimeEndOfRunEventHandler._event_time self).
  { revert Hrun. unfold FinalTimeEndOfRunEventHandler.send_out_state.
    unfold bind at 1.
    destruct (store_in_state cnodes_with_active_units self) as [[[]|e] s1] eqn:H1.
    - unfold bind at 1.
      destruct (time_slice_all_units_in_state s1) as [[[]|e] s2] eqn:H2.
      + unfold_method. intros [= <- <-].
        by rewrite (Hslice _ _ _ H2), (Hstore _ _ _ _ H1).
      + intros [= <- <-]. by rewrite (Hslice _ _ _ H2), (Hstore _ _ _ _ H1).
    - intros [= <- <-]. by rewrite (Hstore _ _ _ _ H1). }
  unfold FinalTimeEndOfRunEventHandler.send_event_time. unfold_method.
  by rewrite Ht', Ht.
Qed.

Lemma end_of_run_time_kept_by_send_out_state_witness :
  let self' :=
    (FinalTimeEndOfRunEventHandler.send_out_state example_store_in_state
       (ret tt) example_state example_end_of_run).2 in
  FinalTimeEndOfRunEventHandler._state self' = example_state ∧
  FinalTimeEndOfRunEventHandler.send_event_time self' = (Ok 1%float, self').
Proof.
  split; [reflexivity|].
  apply (end_of_run_time_kept_by_send_out_state example_store_in_state
           (ret tt) 1%float None example_end_of_run example_state
           (Ok example_state)).
  - by intros cnodes s r s' [= _ <-].
  - by intros s r s' [= _ <-].
  - reflexivity.
  - reflexivity.
Defined.

(** * Properties of the PDB output handler *)

Section comprehension_lemmas.
Context {A B : Type}.
Implicit Types (f : A → PdbOutputHandler.Outcome B) (g : A → B) (l : list A).

Lemma comprehension_Return f g l :
  (∀ x, x ∈ l → f x = PdbOutputHandler.Return (g x)) →
  PdbOutputHandler.comprehension f l = PdbOutputHandler.Return (g <$> l).
Proof.
  induction l as [|x l IH]; intros Hf; simpl; [done|].
  rewrite (Hf x) by left. simpl. rewrite IH; [done|].
  intros y Hy. apply Hf. by right.
Qed.

Lemma comprehension_Throw f g l1 x l2 e :
  (∀ y, y ∈ l1 → f y = PdbOutputHandler.Return (g y)) →
  f x = PdbOutputHandler.Throw e →
  PdbOutputHandler.comprehension f (l1 ++ x :: l2) = PdbOutputHandler.Throw e.
Proof.
  induction l1 as [|y l1 IH]; intros Hf Hx; simpl; [by rewrite Hx|].
  rewrite (Hf y) by left. simpl. rewrite IH; [done| |done].
  intros z Hz. apply Hf. by right.
Qed.
End comprehension_lemmas.

Lemma pdb_atom_resindex_Return number_of_root_nodes number_of_nodes_per_root_node :
  PdbOutputHandler.comprehension
    (λ index, PdbOutputHandler.floordiv index number_of_nodes_per_root_node)
    (PdbOutputHandler.range (number_of_root_nodes * number_of_nodes_per_root_node))
  = PdbOutputHandler.Return
      ((λ index, index / number_of_nodes_per_root_node)
         <$> PdbOutputHandler.range
               (number_of_root_nodes * number_of_nodes_per_root_node)).
Proof.
  destruct (decide (number_of_nodes_per_root_node = 0)) as [->|Hne].
  - by rewrite Z.mul_0_r.
  - apply comprehension_Return. intros x _. unfold PdbOutputHandler.floordiv.
    apply Z.eqb_neq in Hne. by rewrite Hne.
Qed.

Lemma list_getitem_lt {A} (l : list A) (i : Z) :
  0 ≤ i < Z.of_nat (length l) →
  ∃ x, list_getitem l i = Ok x ∧ l !! Z.to_nat i = Some x.
Proof.
  intros Hi. unfold list_getitem.
  destruct (i <? 0) eqn:Hneg; [apply Z.ltb_lt in Hneg; lia|].
  destruct (lookup_lt_is_Some_2 l (Z.to_nat i)) as [x Hx]; [lia|].
  exists x. rewrite Hx.
  destruct ((0 <=? i) && (i <? Z.of_nat (length l))) eqn:Hb; [done|].
  apply andb_false_iff in Hb as [Hb|Hb]; [apply Z.leb_gt in Hb|apply Z.ltb_ge in Hb];
    lia.
Qed.

Lemma list_getitem_ge {A} (l : list A) (i : Z) :
  Z.of_nat (length l) ≤ i → list_getitem l i = Raise IndexError.
Proof.
  intros Hi. unfold list_getitem.
  destruct (i <? 0) eqn:Hneg; [apply Z.ltb_lt in Hneg; lia|].
  destruct ((0 <=? i) && (i <? Z.of_nat (length l))) eqn:Hb; [|done].
  apply andb_true_iff in Hb as [_ Hb]. apply Z.ltb_lt in Hb. lia.
Qed.

Lemma pdb_lengths_Return (system_lengths : list float) dimension :
  dimension ≤ Z.of_nat (length system_lengths) →
  PdbOutputHandler.comprehension
    (λ index, PdbOutputHandler.of_result (list_getitem system_lengths index))
    (PdbOutputHandler.range dimension)
  = PdbOutputHandler.Return (take (Z.to_nat dimension) system_lengths).
Proof.
  intros Hle.
  rewrite (comprehension_Return _
             (λ index, default 0%float (system_lengths !! Z.to_nat index))).
  - f_equal. apply list_eq. intros i. rewrite list_lookup_fmap.
    unfold PdbOutputHandler.range.
    destruct (decide (Z.of_nat i < dimension)) as [Hi|Hi].
    + rewrite lookup_seqZ_lt by done. simpl. rewrite Z.add_0_l, Nat2Z.id.
      rewrite lookup_take_lt by lia.
      destruct (lookup_lt_is_Some_2 system_lengths i) as [x ->]; [lia|done].
    + rewrite lookup_seqZ_ge by lia. simpl. by rewrite lookup_take_ge by lia.
  - intros x Hx%elem_of_seqZ.
    destruct (list_getitem_lt system_lengths x) as (y & -> & ->); [lia|done].
Qed.

Lemma pdb_lengths_Throw (system_lengths : list float) dimension :
  Z.of_nat (length system_lengths) < dimension →
  PdbOutputHandler.comprehension
    (λ index, PdbOutputHandler.of_result (list_getitem system_lengths index))
    (PdbOutputHandler.range dimension)
  = PdbOutputHandler.Throw (PdbOutputHandler.Python IndexError).
Proof.
  intros Hlt. unfold PdbOutputHandler.range.
  replace dimension
    with (Z.of_nat (length system_lengths)
          + (dimension - Z.of_nat (length system_lengths))) by lia.
  rewrite seqZ_app by lia. rewrite (seqZ_cons (0 + _)) by lia.
  apply (comprehension_Throw _
           (λ index, default 0%float (system_lengths !! Z.to_nat index))).
  - intros x Hx%elem_of_seqZ.
    destruct (list_getitem_lt system_lengths x) as (y & -> & ->); [lia|done].
  - by rewrite list_getitem_ge by lia.
Qed.

Lemma pdb_names_Return (names_within : list string) number_of_atoms :
  names_within ≠ [] →
  PdbOutputHandler.comprehension
    (λ ix,
       PdbOutputHandler.and_then
         (PdbOutputHandler.modulo ix (Z.of_nat (length names_within)))
         (λ i, PdbOutputHandler.of_result (list_getitem names_within i)))
    (PdbOutputHandler.range number_of_atoms)
  = PdbOutputHandler.Return
      ((λ ix, default ""%string
                (names_within
                   !! Z.to_nat (ix `mod` Z.of_nat (length names_within))))
         <$> PdbOutputHandler.range number_of_atoms).
Proof.
  intros Hne. apply comprehension_Return. intros ix _.
  assert (0 < Z.of_nat (length names_within)) by (destruct names_within; simpl; [done|lia]).
  unfold PdbOutputHandler.modulo.
  destruct (Z.of_nat (length names_within) =? 0) eqn:H0;
    [apply Z.eqb_eq in H0; lia|]. simpl.
  destruct (list_getitem_lt names_within (ix `mod` Z.of_nat (length names_within)))
    as (y & -> & ->); [|done].
  by apply Z.mod_pos_bound.
Qed.

(** X14 (what the constructor of the PDB output handler accepts).  The
    constructor returns exactly when the hypercuboid setting is initialized,
    the file name ends with ".pdb", the dimension is at most 3 and the
    setting has a system length for each dimension, the bonds come in pairs
    and the names, if any, are as many as the nodes per root node.
    Otherwise it raises a [ConfigurationError], or an [IndexError] for a
    missing system length; it never divides by zero. *)
Theorem pdb_init_outcome setting filename names_within_composite_object
    bonds_within_composite_object starting_integer :
  match PdbOutputHandler.__init__ setting filename names_within_composite_object
          bonds_within_composite_object starting_integer with
  | PdbOutputHandler.Return self =>
      pdb_accepted setting filename names_within_composite_object
        bonds_within_composite_object
  | PdbOutputHandler.Throw e =>
      ¬ pdb_accepted setting filename names_within_composite_object
          bonds_within_composite_object ∧
      (e = PdbOutputHandler.Python ConfigurationError ∨
       e = PdbOutputHandler.Python IndexError)
  end.
Proof.
  unfold PdbOutputHandler.__init__, pdb_accepted.
  destruct (PdbOutputHandler.initialized setting); simpl;
    [|by split; [intros (?&_)|left]].
  destruct (PdbOutputHandler.endswith filename ".pdb"); simpl;
    [|by split; [intros (_&?&_)|left]].
  destruct (3 <? PdbOutputHandler.dimension setting) eqn:Hdim.
  { apply Z.ltb_lt in Hdim. split; [intros (_&_&?&_); lia|by left]. }
  apply Z.ltb_ge in Hdim.
  rewrite pdb_atom_resindex_Return. simpl.
  destruct (decide (PdbOutputHandler.dimension setting
                    ≤ Z.of_nat (length (PdbOutputHandler.system_lengths setting))))
    as [Hlen|Hlen]; last first.
  { rewrite pdb_lengths_Throw by lia. simpl.
    split; [intros (_&_&_&?&_); lia|by right]. }
  rewrite pdb_lengths_Return by done. simpl.
  assert (Hbonds :
    Z.of_nat (length bonds_within_composite_object) `mod` 2 = 0 ∨
    (bonds_within_composite_object ≠ [] ∧
     (Z.of_nat (length bonds_within_composite_object) `mod` 2 =? 0) = false)).
  { destruct (Z.of_nat (length bonds_within_composite_object) `mod` 2 =? 0) eqn:Hb;
      [left; by apply Z.eqb_eq|right].
    split; [|done]. intros Hnil. subst. by simpl in Hb. }
  destruct Hbonds as [Hb|[Hne Hb]]; last first.
  { destruct bonds_within_composite_object as [|b bs]; [done|].
    rewrite Hb. simpl. apply Z.eqb_neq in Hb.
    split; [by intros (_&_&_&_&?&_)|by left]. }
  assert (Hbonds : ∃ bonds,
    match bonds_within_composite_object with
    | [] => PdbOutputHandler.Return None
    | _ :: _ =>
        if negb (Z.of_nat (length bonds_within_composite_object) `mod` 2 =? 0)
        then PdbOutputHandler.Throw (PdbOutputHandler.Python ConfigurationError)
        else PdbOutputHandler.Return
               (Some (PdbOutputHandler.zip_iterator
                        (composite_index ← PdbOutputHandler.range
                                             (PdbOutputHandler.number_of_root_nodes setting);
                         (λ index,
                            index + composite_index
                                    * PdbOutputHandler.number_of_nodes_per_root_node setting)
                           <$> bonds_within_composite_object)))
    end = PdbOutputHandler.Return bonds).
  { destruct bonds_within_composite_object as [|b bs]; [by eexists|].
    apply Z.eqb_eq in Hb. rewrite Hb. by eexists. }
  destruct Hbonds as [bonds ->]. simpl.
  destruct names_within_composite_object as [|name names]; [simpl; by auto 10|].
  cbv beta iota.
  destruct (Z.of_nat (length (name :: names))
            =? PdbOutputHandler.number_of_nodes_per_root_node setting) eqn:Hn;
    last first.
  { apply Z.eqb_neq in Hn. simpl. split; [|by left].
    by intros (_&_&_&_&_&[?|?]). }
  apply Z.eqb_eq in Hn. rewrite <-Hn.
  rewrite (pdb_names_Return (name :: names)) by done. simpl. auto 10.
Qed.

Lemma pdb_init_Return setting filename names_within bonds_within
    starting_integer self :
  PdbOutputHandler.__init__ setting filename names_within bonds_within
    starting_integer = PdbOutputHandler.Return self →
  self = pdb_constructed setting filename names_within bonds_within
           starting_integer.
Proof.
  intros Hinit.
  pose proof (pdb_init_outcome setting filename names_within bonds_within
                starting_integer) as Hacc.
  rewrite Hinit in Hacc. destruct Hacc as (Hi & He & Hd & Hl & Hb & Hn).
  revert Hinit. unfold PdbOutputHandler.__init__, pdb_constructed.
  rewrite Hi, He. simpl.
  destruct (3 <? PdbOutputHandler.dimension setting) eqn:Hdim;
    [apply Z.ltb_lt in Hdim; lia|].
  rewrite pdb_atom_resindex_Return. simpl.
  rewrite pdb_lengths_Return by done. simpl.
  apply Z.eqb_eq in Hb. rewrite Hb. simpl.
  destruct names_within as [|name names].
  - destruct bonds_within; simpl; by intros [= <-].
  - destruct Hn as [?|Hn]; [done|].
    cbv beta iota. rewrite <-Hn, Z.eqb_refl.
    rewrite (pdb_names_Return (name :: names)) by done.
    destruct bonds_within; simpl; by intros [= <-].
Qed.

(** X15 (the dimensions of the universe).  For a dimension that is not
    negative, the handler the constructor returns gives the universe six
    dimensions: the system lengths of the setting, then 0.0 for the unused
    space dimensions and for the three angles. *)
Theorem pdb_dimensions setting filename names_within bonds_within
    starting_integer self :
  PdbOutputHandler.__init__ setting filename names_within bonds_within
    starting_integer = PdbOutputHandler.Return self →
  0 ≤ PdbOutputHandler.dimension setting →
  let d := Z.to_nat (PdbOutputHandler.dimension setting) in
  let dimensions := PdbOutputHandler.dimensions (PdbOutputHandler._universe self) in
  length dimensions = 6%nat ∧
  take d dimensions = take d (PdbOutputHandler.system_lengths setting) ∧
  drop d dimensions = replicate (6 - d) 0%float.
Proof.
  intros Hinit Hd.
  pose proof (pdb_init_outcome setting filename names_within bonds_within
                starting_integer) as Hacc.
  rewrite Hinit in Hacc. destruct Hacc as (_ & _ & Hd3 & Hl & _).
  apply pdb_init_Return in Hinit as ->. simpl.
  set (d := Z.to_nat (PdbOutputHandler.dimension setting)).
  assert (Hlen : length (take d (PdbOutputHandler.system_lengths setting)) = d).
  { rewrite length_take. lia. }
  replace (Z.to_nat (3 - PdbOutputHandler.dimension setting)) with (3 - d)%nat
    by lia.
  split; [|split].
  - rewrite !length_app, Hlen, length_replicate. simpl. lia.
  - rewrite take_app_le by lia. by rewrite take_take, Nat.min_id.
  - rewrite drop_app_length' by done.
    change [0%float; 0%float; 0%float] with (replicate 3 0%float).
    rewrite <-replicate_add. f_equal. lia.
Qed.

Lemma pdb_dimensions_witness :
  PdbOutputHandler.dimensions (PdbOutputHandler._universe example_pdb_handler)
  = [1%float; 1%float; 1%float; 0%float; 0%float; 0%float] ∧
  length (PdbOutputHandler.dimensions
            (PdbOutputHandler._universe example_pdb_handler)) = 6%nat.
Proof.
  split; [reflexivity|].
  apply (pdb_dimensions example_setting "water.pdb" ["O"; "H"; "H"]%string
           [0; 1; 0; 2] 0 example_pdb_handler); [reflexivity|simpl; lia].
Defined.

(** X16 (the atom of a point mass).  With more than one node level, the
    handler the constructor returns maps the identifier (i, j) of a point
    mass, i below the number of root nodes and j below the number of nodes
    per root node, to the atom number i * nodes + j: it is an atom of the
    universe, its residue, as handed to the universe, is i, its name, if
    names were given, is the j-th name, and two such identifiers with the
    same atom are equal. *)
Theorem pdb_atom_of_identifier setting filename names_within bonds_within
    starting_integer self (i j : nat) :
  PdbOutputHandler.__init__ setting filename names_within bonds_within
    starting_integer = PdbOutputHandler.Return self →
  PdbOutputHandler.number_of_node_levels setting ≠ 1 →
  Z.of_nat i < PdbOutputHandler.number_of_root_nodes setting →
  Z.of_nat j < PdbOutputHandler.number_of_nodes_per_root_node setting →
  let nodes := PdbOutputHandler.number_of_nodes_per_root_node setting in
  let ix := Z.of_nat i * nodes + Z.of_nat j in
  let universe := PdbOutputHandler._universe self in
  PdbOutputHandler._get_atom self [i; j] = Ok ix ∧
  PdbOutputHandler.atom self ix = Ok ix ∧
  0 ≤ ix < PdbOutputHandler._number_of_atoms self ∧
  PdbOutputHandler.atom_resindex universe !! Z.to_nat ix = Some (Z.of_nat i) ∧
  (names_within ≠ [] →
   ∃ names, PdbOutputHandler.names universe = Some names ∧
            names !! Z.to_nat ix = names_within !! j ∧
            is_Some (names_within !! j)) ∧
  (∀ i' j' : nat,
     Z.of_nat j' < nodes →
     Z.of_nat i' * nodes + Z.of_nat j' = ix → i' = i ∧ j' = j).
Proof.
  intros Hinit Hlevels Hi Hj. cbv zeta.
  pose proof (pdb_init_outcome setting filename names_within bonds_within
                starting_integer) as Hacc.
  rewrite Hinit in Hacc. destruct Hacc as (_ & _ & _ & _ & _ & Hn).
  apply pdb_init_Return in Hinit as ->. simpl.
  remember (PdbOutputHandler.number_of_nodes_per_root_node setting) as nodes
    eqn:Hnodes.
  remember (PdbOutputHandler.number_of_root_nodes setting) as roots eqn:Hroots.
  remember (Z.of_nat i * nodes + Z.of_nat j) as ix eqn:Hixdef.
  assert (Hix : 0 ≤ ix < roots * nodes) by nia.
  assert (Hdiv : ix / nodes = Z.of_nat i).
  { subst ix. rewrite Z.div_add_l by lia. rewrite Z.div_small by lia. lia. }
  assert (Hmod : ix `mod` nodes = Z.of_nat j).
  { subst ix. rewrite Z.add_comm, Z.mod_add by lia. apply Z.mod_small. lia. }
  split; [|split; [|split; [done|split; [|split]]]].
  - apply Z.eqb_neq in Hlevels. rewrite Hlevels.
    unfold PdbOutputHandler.identifier_getitem, list_getitem. simpl.
    by subst ix.
  - unfold PdbOutputHandler.atom. simpl. rewrite <-Hnodes, <-Hroots.
    destruct (ix <? 0) eqn:Hneg; [apply Z.ltb_lt in Hneg; lia|].
    destruct (0 <=? ix) eqn:H0; [|apply Z.leb_gt in H0; lia].
    destruct (ix <? roots * nodes) eqn:H1; [done|apply Z.ltb_ge in H1; lia].
  - rewrite list_lookup_fmap. unfold PdbOutputHandler.range.
    rewrite lookup_seqZ_lt by lia. simpl. rewrite Z.add_0_l, Z2Nat.id by lia.
    by rewrite Hdiv.
  - intros Hne. destruct names_within as [|name names]; [done|].
    destruct Hn as [?|Hn]; [done|]. eexists. split; [done|].
    rewrite list_lookup_fmap. unfold PdbOutputHandler.range.
    rewrite lookup_seqZ_lt by lia. simpl. rewrite Z.add_0_l, Z2Nat.id by lia.
    rewrite Hmod, Nat2Z.id.
    destruct (lookup_lt_is_Some_2 (name :: names) j) as [x Hx];
      [simpl in *; lia|].
    rewrite Hx. by split; [|eexists].
  - intros i' j' Hj' Hsame.
    assert (Z.of_nat i' = Z.of_nat i) by nia. split; lia.
Qed.

Lemma pdb_atom_of_identifier_witness :
  PdbOutputHandler._get_atom example_pdb_handler [2%nat; 1%nat] = Ok 7 ∧
  PdbOutputHandler.atom_resindex (PdbOutputHandler._universe example_pdb_handler)
    !! 7%nat = Some 2.
Proof.
  destruct (pdb_atom_of_identifier example_setting "water.pdb"
              ["O"; "H"; "H"]%string [0; 1; 0; 2] 0 example_pdb_handler 2 1)
    as (Hg & _ & _ & Hr & _); [reflexivity|done|simpl; lia|simpl; lia|].
  split; [exact Hg|exact Hr].
Defined.

(** ** Bonds *)

Lemma zip_iterator_pairs (P : list Z → Prop) :
  P [] → (∀ a, P [a]) → (∀ a b l, P l → P (a :: b :: l)) → ∀ l, P l.
Proof.
  intros Hnil Hone Hstep l.
  assert (H : P l ∧ ∀ a, P (a :: l)); [|by destruct H].
  induction l as [|b l [IH1 IH2]]; [done|].
  split; [apply IH2|]. intros a. by apply Hstep.
Qed.

Lemma zip_iterator_app l1 l2 :
  Z.of_nat (length l1) `mod` 2 = 0 →
  PdbOutputHandler.zip_iterator (l1 ++ l2)
  = PdbOutputHandler.zip_iterator l1 ++ PdbOutputHandler.zip_iterator l2.
Proof.
  induction l1 as [|a|a b l1 IH] using zip_iterator_pairs; [done|done|].
  intros Heven. simpl. rewrite IH; [done|].
  simpl length in Heven. rewrite !Nat2Z.inj_succ in Heven.
  replace (Z.succ (Z.succ (Z.of_nat (length l1))))
    with (Z.of_nat (length l1) + 1 * 2) in Heven by lia.
  by rewrite Z.mod_add in Heven by done.
Qed.

Lemma elem_of_zip_iterator a b l :
  (a, b) ∈ PdbOutputHandler.zip_iterator l → a ∈ l ∧ b ∈ l.
Proof.
  induction l as [|x|x y l IH] using zip_iterator_pairs; simpl.
  - by intros ?%elem_of_nil.
  - by intros ?%elem_of_nil.
  - intros [[= -> ->]|Hin]%elem_of_cons.
    + split; [left|right; left].
    + destruct (IH Hin). split; by do 2 right.
Qed.

Lemma length_zip_iterator l :
  length (PdbOutputHandler.zip_iterator l) = (length l / 2)%nat.
Proof.
  induction l as [|x|x y l IH] using zip_iterator_pairs; [done|done|].
  simpl length. rewrite IH.
  change (S (S (length l))) with (1 * 2 + length l)%nat.
  by rewrite Nat.div_add_l by done.
Qed.

Lemma zip_iterator_bind (f : Z → list Z) (l : list Z) :
  (∀ c, Z.of_nat (length (f c)) `mod` 2 = 0) →
  PdbOutputHandler.zip_iterator (l ≫= f)
  = l ≫= (λ c, PdbOutputHandler.zip_iterator (f c)).
Proof.
  intros Heven. induction l as [|c l IH]; [done|].
  rewrite !bind_cons, zip_iterator_app by done. by rewrite IH.
Qed.

Lemma length_bind_constant {A B} (f : A → list B) (l : list A) (k : nat) :
  (∀ x, length (f x) = k) → length (l ≫= f) = (length l * k)%nat.
Proof.
  intros Hk. induction l as [|x l IH]; [done|].
  rewrite bind_cons, length_app, IH, Hk. simpl. lia.
Qed.

(** X17 (bonds stay within a composite object).  When bonds are given and
    each bonded point mass is numbered below the number of nodes per root
    node, the handler the constructor returns hands the universe, for every
    root node, one pair of atoms per pair of the given sequence; the two
    atoms of every pair are atoms of the universe and belong to the same
    residue. *)
Theorem pdb_bonds_within_residues setting filename names_within bonds_within
    starting_integer self :
  PdbOutputHandler.__init__ setting filename names_within bonds_within
    starting_integer = PdbOutputHandler.Return self →
  bonds_within ≠ [] →
  (∀ b, b ∈ bonds_within →
        0 ≤ b < PdbOutputHandler.number_of_nodes_per_root_node setting) →
  let nodes := PdbOutputHandler.number_of_nodes_per_root_node setting in
  ∃ pairs,
    PdbOutputHandler.bonds (PdbOutputHandler._universe self) = Some pairs ∧
    length pairs
      = (Z.to_nat (PdbOutputHandler.number_of_root_nodes setting)
         * (length bonds_within / 2))%nat ∧
    ∀ a b, (a, b) ∈ pairs →
      0 ≤ a < PdbOutputHandler._number_of_atoms self ∧
      0 ≤ b < PdbOutputHandler._number_of_atoms self ∧
      a / nodes = b / nodes.
Proof.
  intros Hinit Hne Hrange. cbv zeta.
  pose proof (pdb_init_outcome setting filename names_within bonds_within
                starting_integer) as Hacc.
  rewrite Hinit in Hacc. destruct Hacc as (_ & _ & _ & _ & Heven & _).
  apply pdb_init_Return in Hinit as ->. simpl.
  remember (PdbOutputHandler.number_of_nodes_per_root_node setting) as nodes
    eqn:Hnodes.
  remember (PdbOutputHandler.number_of_root_nodes setting) as roots eqn:Hroots.
  destruct bonds_within as [|b0 bs] eqn:Hbonds; [done|]. rewrite <-Hbonds in *.
  clear Hbonds Hne. eexists. split; [done|].
  rewrite (zip_iterator_bind
             (λ c, (λ index, index + c * nodes) <$> bonds_within))
    by (intros c; by rewrite length_fmap).
  split.
  - rewrite (length_bind_constant _ _ (length bonds_within / 2)).
    + unfold PdbOutputHandler.range. by rewrite length_seqZ.
    + intros c. by rewrite length_zip_iterator, length_fmap.
  - intros a b (c & Hab & Hc)%list_elem_of_bind.
    apply elem_of_seqZ in Hc.
    apply elem_of_zip_iterator in Hab as [Ha Hb].
    apply list_elem_of_fmap in Ha as (x & -> & Hx%Hrange).
    apply list_elem_of_fmap in Hb as (y & -> & Hy%Hrange).
    split; [nia|]. split; [nia|].
    rewrite !Z.div_add by lia. by rewrite !Z.div_small by lia.
Qed.

Lemma pdb_bonds_within_residues_witness :
  PdbOutputHandler.bonds (PdbOutputHandler._universe example_pdb_handler)
  = Some [(0, 1); (0, 2); (3, 4); (3, 5); (6, 7); (6, 8); (9, 10); (9, 11)] ∧
  ∃ pairs,
    PdbOutputHandler.bonds (PdbOutputHandler._universe example_pdb_handler)
      = Some pairs ∧
    length pairs = 8%nat.
Proof.
  split; [reflexivity|].
  destruct (pdb_bonds_within_residues example_setting "water.pdb"
              ["O"; "H"; "H"]%string [0; 1; 0; 2] 0 example_pdb_handler)
    as (pairs & Hpairs & Hlen & _); [reflexivity|done| |].
  - intros b Hb. simpl.
    repeat (apply elem_of_cons in Hb as [->|Hb]; [lia|]).
    by apply elem_of_nil in Hb.
  - exists pairs. split; [exact Hpairs|exact Hlen].
Defined.

(** ** File names *)

Lemma list_ascii_of_string_app (a b : string) :
  String.list_ascii_of_string (a +:+ b)
  = String.list_ascii_of_string a ++ String.list_ascii_of_string b.
Proof. induction a as [|c a IH]; [done|]. simpl. by rewrite IH. Qed.

Lemma string_of_list_ascii_app (a b : list Ascii.ascii) :
  String.string_of_list_ascii (a ++ b)
  = (String.string_of_list_ascii a +:+ String.string_of_list_ascii b)%string.
Proof. induction a as [|c a IH]; [done|]. simpl. by rewrite IH. Qed.

Lemma string_app_inj_r (a b s : string) : (a +:+ s = b +:+ s)%string → a = b.
Proof.
  intros H.
  apply (f_equal String.list_ascii_of_string) in H.
  rewrite !list_ascii_of_string_app in H. apply (inj (.++ _)) in H.
  apply (f_equal String.string_of_list_ascii) in H.
  by rewrite !String.string_of_list_ascii_of_string in H.
Qed.

(** X18 (the file name without its ending).  For a file name that ends with
    ".pdb", cutting its last four characters and putting ".pdb" back gives
    the file name again; this is the case for the stored
    [_filename_without_ending] of every handler the constructor returns. *)
Theorem pdb_filename_without_ending setting filename names_within bonds_within
    starting_integer self :
  PdbOutputHandler.__init__ setting filename names_within bonds_within
    starting_integer = PdbOutputHandler.Return self →
  (PdbOutputHandler._filename_without_ending self +:+ ".pdb")%string = filename ∧
  PdbOutputHandler._current_file_index self = starting_integer.
Proof.
  intros Hinit.
  pose proof (pdb_init_outcome setting filename names_within bonds_within
                starting_integer) as Hacc.
  rewrite Hinit in Hacc. destruct Hacc as (_ & Hends & _).
  apply pdb_init_Return in Hinit as ->. simpl. split; [|done].
  unfold PdbOutputHandler.endswith in Hends.
  apply bool_decide_eq_true in Hends as [k Hk].
  unfold PdbOutputHandler.without_last_four. rewrite Hk.
  rewrite length_app. simpl length.
  rewrite take_app_length' by lia.
  change ".pdb"%string
    with (String.string_of_list_ascii (String.list_ascii_of_string ".pdb")).
  rewrite <-string_of_list_ascii_app, <-Hk.
  apply String.string_of_list_ascii_of_string.
Qed.

Lemma pdb_filename_without_ending_witness :
  (PdbOutputHandler._filename_without_ending example_pdb_handler +:+ ".pdb")%string
  = "water.pdb"%string.
Proof.
  apply (pdb_filename_without_ending example_setting "water.pdb"
           ["O"; "H"; "H"]%string [0; 1; 0; 2] 0 example_pdb_handler).
  reflexivity.
Defined.

Lemma pdb_set_positions_frame leaves self r self' :
  for_each leaves (λ leaf_node,
    self <- get ;;
    index <- lift (PdbOutputHandler._get_atom self (identifier (value leaf_node))) ;;
    ix <- lift (PdbOutputHandler.atom self index) ;;
    PdbOutputHandler.set_position ix (position (value leaf_node))) self
  = (r, self') →
  PdbOutputHandler._filename_without_ending self'
    = PdbOutputHandler._filename_without_ending self ∧
  PdbOutputHandler._current_file_index self'
    = PdbOutputHandler._current_file_index self.
Proof.
  apply (for_each_preserves
           (λ s, PdbOutputHandler._filename_without_ending s
                   = PdbOutputHandler._filename_without_ending self ∧
                 PdbOutputHandler._current_file_index s
                   = PdbOutputHandler._current_file_index self)); [|done].
  intros leaf s r1 s1 Hs. unfold PdbOutputHandler.set_position. unfold_method.
  destruct (PdbOutputHandler._get_atom s _) as [index|e]; [|by intros [= _ <-]].
  destruct (PdbOutputHandler.atom s index) as [ix|e]; [|by intros [= _ <-]].
  destruct (PdbOutputHandler.float32_row _) as [row|e]; by intros [= _ <-].
Qed.

Lemma pdb_write_Ok state self file universe self' :
  PdbOutputHandler.write state self = (Ok (file, universe), self') →
  file = (PdbOutputHandler._filename_without_ending self
          +:+ pretty (PdbOutputHandler._current_file_index self) +:+ ".pdb")%string ∧
  PdbOutputHandler._filename_without_ending self'
    = PdbOutputHandler._filename_without_ending self ∧
  PdbOutputHandler._current_file_index self'
    = PdbOutputHandler._current_file_index self + 1 ∧
  universe = PdbOutputHandler._universe self'.
Proof.
  unfold PdbOutputHandler.write. unfold bind at 1.
  destruct (for_each state _ self) as [[[]|e] s1] eqn:Hloops; [|done].
  assert (PdbOutputHandler._filename_without_ending s1
            = PdbOutputHandler._filename_without_ending self ∧
          PdbOutputHandler._current_file_index s1
            = PdbOutputHandler._current_file_index self) as [Hstem Hidx].
  { revert Hloops.
    apply (for_each_preserves
             (λ s, PdbOutputHandler._filename_without_ending s
                     = PdbOutputHandler._filename_without_ending self ∧
                   PdbOutputHandler._current_file_index s
                     = PdbOutputHandler._current_file_index self)); [|done].
    intros root s r1 s2 [Hs1 Hs2] Hrun.
    apply pdb_set_positions_frame in Hrun as [-> ->]. done. }
  unfold_method. intros [= <- <- <-]. simpl. by rewrite Hstem, Hidx.
Qed.

(** X19 (a new file for every call of [write]).  When successive calls of
    [write] return, the call number k (from 0) writes to the file named by
    the stored file name without ending, the counter the handler started
    with plus k, and ".pdb"; these names are pairwise distinct, and the
    counter has gone up by the number of calls. *)
Theorem pdb_written_files states self files self' :
  write_each states self = (Ok files, self') →
  files.*1
    = (λ k, (PdbOutputHandler._filename_without_ending self
             +:+ pretty (PdbOutputHandler._current_file_index self + k)
             +:+ ".pdb")%string)
        <$> seqZ 0 (Z.of_nat (length states)) ∧
  NoDup files.*1 ∧
  PdbOutputHandler._current_file_index self'
    = PdbOutputHandler._current_file_index self + Z.of_nat (length states).
Proof.
  intros Hrun.
  assert (files.*1
          = (λ k, (PdbOutputHandler._filename_without_ending self
                   +:+ pretty (PdbOutputHandler._current_file_index self + k)
                   +:+ ".pdb")%string)
              <$> seqZ 0 (Z.of_nat (length states)) ∧
          PdbOutputHandler._current_file_index self'
          = PdbOutputHandler._current_file_index self
            + Z.of_nat (length states)) as [Hfiles Hidx].
  { revert self files Hrun. induction states as [|state states IH];
      intros self files; simpl.
    - unfold ret. intros [= <- <-]. split; [done|lia].
    - unfold bind at 1.
      destruct (PdbOutputHandler.write state self) as [[[file u]|e] s1] eqn:Hw;
        [|done].
      unfold bind at 1.
      destruct (write_each states s1) as [[rest|e] s2] eqn:Hrest; [|done].
      unfold ret. intros [= <- <-].
      apply pdb_write_Ok in Hw as (-> & Hstem & Hidx & _).
      destruct (IH _ _ Hrest) as [Hfiles Hidx']. rewrite Hstem, Hidx in *.
      split; [|lia]. rewrite fmap_cons, Hfiles.
      rewrite (seqZ_cons 0 (Z.of_nat (S _))) by lia.
      rewrite fmap_cons, Z.add_0_r. f_equal.
      replace (Z.pred (Z.of_nat (S (length states))))
        with (Z.of_nat (length states)) by lia.
      rewrite <-(fmap_add_seqZ 1 0), <-list_fmap_compose.
      apply list_fmap_ext. intros _ k _. simpl. do 3 f_equal. lia. }
  split; [done|]. split; [|done]. rewrite Hfiles.
  apply NoDup_fmap_2; [|apply NoDup_seqZ].
  intros k1 k2 Hk. apply (inj (String.append _)) in Hk.
  apply string_app_inj_r in Hk. apply (inj pretty) in Hk. lia.
Qed.

Lemma pdb_written_files_witness :
  ∃ files self',
    write_each [[]; []] example_pdb_handler = (Ok files, self') ∧
    files.*1 = ["water0.pdb"; "water1.pdb"]%string ∧
    PdbOutputHandler._current_file_index self' = 2.
Proof.
  destruct (write_each [[]; []] example_pdb_handler) as [[files|e] self'] eqn:Hrun.
  - exists files, self'. split; [done|].
    destruct (pdb_written_files _ _ _ _ Hrun) as (Hfiles & _ & Hidx).
    split; [exact Hfiles|exact Hidx].
  - vm_compute in Hrun. discriminate Hrun.
Defined.

(** ** Positions *)

Lemma for_each_app {S A} (body : A → M S unit) l1 l2 s :
  for_each (l1 ++ l2) body s = (for_each l1 body ;; for_each l2 body) s.
Proof.
  revert s. induction l1 as [|x l1 IH]; intros s; simpl; [done|].
  unfold bind. destruct (body x s) as [[[]|e] s1]; [|done].
  rewrite IH. by unfold bind.
Qed.

Lemma for_each_nested {S A B} (f : A → list B) (body : B → M S unit) l s :
  for_each l (λ x, for_each (f x) body) s = for_each (l ≫= f) body s.
Proof.
  revert s. induction l as [|x l IH]; intros s; [done|].
  rewrite bind_cons, for_each_app. simpl. unfold bind.
  destruct (for_each (f x) body s) as [[[]|e] s1]; [apply IH|done].
Qed.

Lemma pdb_frame_refl self : pdb_frame self self.
Proof. by unfold pdb_frame, same_topology. Qed.

Lemma pdb_frame_store_position ix row self self' :
  pdb_frame (PdbOutputHandler.store_position ix row self) self' →
  pdb_frame self self'.
Proof. unfold pdb_frame, same_topology. simpl. done. Qed.

Lemma pdb_assignment_frame self self' leaf_node :
  pdb_frame self self' →
  pdb_assignment self' leaf_node = pdb_assignment self leaf_node.
Proof.
  intros (_ & _ & _ & _ & Hget & Hn & _).
  unfold pdb_assignment, pdb_atom_of, PdbOutputHandler.atom.
  by rewrite Hget, Hn.
Qed.

Lemma pdb_store_frame self self' leaves stored :
  pdb_frame self self' →
  foldl (pdb_store self') stored leaves = foldl (pdb_store self) stored leaves.
Proof.
  intros Hframe. revert stored. induction leaves as [|leaf leaves IH];
    intros stored; [done|].
  simpl. rewrite IH. unfold pdb_store.
  by rewrite (pdb_assignment_frame _ _ _ Hframe).
Qed.

Lemma pdb_assignment_Ok self leaf_node ix row :
  pdb_assignment self leaf_node = Ok (ix, row) ↔
  pdb_atom_of self (identifier (value leaf_node)) = Ok ix ∧
  PdbOutputHandler.float32_row (position (value leaf_node)) = Ok row.
Proof.
  unfold pdb_assignment.
  destruct (pdb_atom_of self _) as [ix'|e];
    [destruct (PdbOutputHandler.float32_row _) as [row'|e]|];
    (split; [intros ?|intros [? ?]]); by simplify_eq.
Qed.




Lemma pdb_set_positions_run leaves self r self' :
  for_each leaves (λ leaf_node,
    self <- get ;;
    index <- lift (PdbOutputHandler._get_atom self (identifier (value leaf_node))) ;;
    ix <- lift (PdbOutputHandler.atom self index) ;;
    PdbOutputHandler.set_position ix (position (value leaf_node))) self
  = (r, self') →
  pdb_frame self self' ∧
  PdbOutputHandler._current_file_index self'
    = PdbOutputHandler._current_file_index self ∧
  match r with
  | Ok _ =>
      Forall (λ leaf_node, ∃ assigned, pdb_assignment self leaf_node = Ok assigned)
        leaves ∧
      PdbOutputHandler.positions (PdbOutputHandler._universe self')
      = foldl (pdb_store self)
          (PdbOutputHandler.positions (PdbOutputHandler._universe self)) leaves
  | Raise e =>
      ∃ leaf_node, leaf_node ∈ leaves ∧ pdb_assignment self leaf_node = Raise e
  end.
Proof.
  revert self. induction leaves as [|leaf leaves IH]; intros self; simpl.
  - unfold ret. intros [= <- <-]. split; [apply pdb_frame_refl|]. by split.
  - unfold bind at 1.
    assert (Hbody :
      (self <- get ;;
       index <- lift (PdbOutputHandler._get_atom self (identifier (value leaf))) ;;
       ix <- lift (PdbOutputHandler.atom self index) ;;
       PdbOutputHandler.set_position ix (position (value leaf))) self
      = match pdb_assignment self leaf with
        | Ok (ix, row) => (Ok tt, PdbOutputHandler.store_position ix row self)
        | Raise e => (Raise e, self)
        end).
    { unfold pdb_assignment, pdb_atom_of, PdbOutputHandler.set_position.
      unfold_method.
      destruct (PdbOutputHandler._get_atom self _) as [index|e]; [|done].
      destruct (PdbOutputHandler.atom self index) as [ix|e]; [|done].
      by destruct (PdbOutputHandler.float32_row _). }
    rewrite Hbody. clear Hbody.
    destruct (pdb_assignment self leaf) as [[ix row]|e] eqn:Hleaf.
    + intros Hrun. apply IH in Hrun as (Hframe & Hidx & Hr).
      assert (Hstep : pdb_frame self (PdbOutputHandler.store_position ix row self)).
      { by unfold pdb_frame, same_topology. }
      split; [by apply pdb_frame_store_position in Hframe|]. split; [done|].
      destruct r as [[]|e].
      * destruct Hr as [Hall Hpos]. split.
        -- constructor; [by exists (ix, row)|].
           eapply Forall_impl; [exact Hall|]. intros leaf' [assigned Hassigned].
           exists assigned. by rewrite <-(pdb_assignment_frame _ _ _ Hstep).
        -- rewrite Hpos, (pdb_store_frame _ _ _ _ Hstep).
           unfold pdb_store at 3. by rewrite Hleaf.
      * destruct Hr as (leaf' & Hin & Hraise). exists leaf'.
        split; [by right|]. by rewrite <-(pdb_assignment_frame _ _ _ Hstep).
    + intros [= <- <-]. split; [apply pdb_frame_refl|]. split; [done|].
      exists leaf. split; [by left|done].
Qed.

Lemma foldl_pdb_store_other self leaves stored ix :
  (∀ leaf_node, leaf_node ∈ leaves →
     pdb_atom_of self (identifier (value leaf_node)) ≠ Ok ix) →
  foldl (pdb_store self) stored leaves !! ix = stored !! ix.
Proof.
  revert stored. induction leaves as [|leaf leaves IH]; intros stored Hother;
    [done|].
  simpl. rewrite IH by (intros leaf' Hin; apply Hother; by right).
  unfold pdb_store.
  destruct (pdb_assignment self leaf) as [[ix' row]|e] eqn:Hleaf; [|done].
  apply pdb_assignment_Ok in Hleaf as [Hatom _].
  apply lookup_insert_ne. intros ->. by apply (Hother leaf); [left|].
Qed.

Lemma pdb_write_run state self :
  PdbOutputHandler.write state self
  = match
      for_each (state ≫= yield_leaf_nodes) (λ leaf_node,
        self <- get ;;
        index <- lift (PdbOutputHandler._get_atom self
                         (identifier (value leaf_node))) ;;
        ix <- lift (PdbOutputHandler.atom self index) ;;
        PdbOutputHandler.set_position ix (position (value leaf_node)))
        self
    with
    | (Ok _, after) =>
        (Ok ((PdbOutputHandler._filename_without_ending after
              +:+ pretty (PdbOutputHandler._current_file_index after)
              +:+ ".pdb")%string,
             PdbOutputHandler._universe after),
         PdbOutputHandler.increment_file_index after)
    | (Raise e, after) => (Raise e, after)
    end.
Proof.
  unfold PdbOutputHandler.write. unfold bind at 1.
  rewrite (for_each_nested yield_leaf_nodes _ state self).
  by destruct (for_each (state ≫= yield_leaf_nodes) _ self) as [[[]|e] after].
Qed.


(** X21 (the positions [write] stores).  When [write] returns, the universe
    it hands to the writer holds, at the atom of a leaf unit, the row that
    the position of the last leaf unit of the state with this atom makes:
    its three components, or three times its single component, each rounded
    to binary32; at every atom that no leaf unit addresses it holds the
    position it held before. *)
Theorem pdb_write_positions state self file universe self' :
  PdbOutputHandler.write state self = (Ok (file, universe), self') →
  let leaves := state ≫= yield_leaf_nodes in
  (∀ before leaf_node after ix,
     leaves = before ++ leaf_node :: after →
     pdb_atom_of self (identifier (value leaf_node)) = Ok ix →
     (∀ later, later ∈ after →
        pdb_atom_of self (identifier (value later)) ≠ Ok ix) →
     ∃ row,
       PdbOutputHandler.positions universe !! ix = Some row ∧
       length row = 3%nat ∧
       ∀ k : nat, (k < 3)%nat →
         row !! k
         = PdbOutputHandler.float32
             <$> (position (value leaf_node)
                    !! (if decide (length (position (value leaf_node)) = 1%nat)
                        then 0%nat else k))) ∧
  (∀ ix,
     (∀ leaf_node, leaf_node ∈ leaves →
        pdb_atom_of self (identifier (value leaf_node)) ≠ Ok ix) →
     PdbOutputHandler.positions universe !! ix
     = PdbOutputHandler.positions (PdbOutputHandler._universe self) !! ix).
Proof.
  intros Hrun. cbv zeta.
  rewrite pdb_write_run in Hrun.
  destruct (for_each (state ≫= yield_leaf_nodes) _ self) as [r s1] eqn:Hloop.
  apply pdb_set_positions_run in Hloop as (_ & _ & Hr).
  destruct r as [[]|e]; [|done]. injection Hrun as _ <- _.
  destruct Hr as [Hall ->]. split.
  - intros before leaf after ix Hsplit Hleaf Hlater. rewrite Hsplit in *.
    apply Forall_app in Hall as [_ Hall]. apply Forall_cons in Hall as [Hrow _].
    destruct Hrow as [[ix' row] Hassigned].
    pose proof Hassigned as [Hatom Hrow]%pdb_assignment_Ok.
    rewrite Hleaf in Hatom. injection Hatom as <-.
    exists row. split; [|].
    + rewrite foldl_app. simpl.
      rewrite foldl_pdb_store_other by done.
      unfold pdb_store. rewrite Hassigned. by simplify_map_eq.
    + destruct (position (value leaf)) as [|x [|y [|z [|w p]]]];
        simpl in Hrow; try done; injection Hrow as <-; (split; [done|]);
        intros [|[|[|k]]] Hk; simpl; try done; lia.
  - intros ix Hother. by apply foldl_pdb_store_other.
Qed.

Lemma pdb_write_positions_witness :
  ∃ file universe self',
    PdbOutputHandler.write example_waters example_pdb_handler
    = (Ok (file, universe), self') ∧
    PdbOutputHandler.positions universe !! 4
    = Some [5; 0x1.99999ap-4; 0]%float.
Proof.
  destruct (PdbOutputHandler.write example_waters example_pdb_handler)
    as [[[file universe]|e] self'] eqn:Hrun;
    [|vm_compute in Hrun; discriminate Hrun].
  exists file, universe, self'. split; [done|].
  destruct (pdb_write_positions _ _ _ _ _ Hrun) as [Hlast _].
  destruct (Hlast (take 4 (example_waters ≫= yield_leaf_nodes))
              (mkNode (mkUnit [1; 1]%nat [5; 0x1.999999999999ap-4; 0]%float
                         None None None) [])
              (drop 5 (example_waters ≫= yield_leaf_nodes)) 4)
    as (row & -> & Hlen & Hrow).
  - vm_compute; reflexivity.
  - vm_compute; reflexivity.
  - intros later Hin. vm_compute in Hin.
    apply list_elem_of_singleton in Hin as ->. vm_compute. discriminate.
  - f_equal. apply list_eq. intros [|[|[|k]]].
    + rewrite (Hrow 0%nat) by lia. vm_compute; reflexivity.
    + rewrite (Hrow 1%nat) by lia. vm_compute; reflexivity.
    + rewrite (Hrow 2%nat) by lia. vm_compute; reflexivity.
    + simpl. apply lookup_ge_None_2. rewrite Hlen. lia.
Defined.

(** A position of two components: the assignment on line 159 raises, the
    handler is as before and no file is written. *)
Example pdb_write_flat_position_raises :
  PdbOutputHandler.write example_flat_waters example_pdb_handler
  = (Raise ValueError, example_pdb_handler).
Proof. vm_compute. reflexivity. Qed.
